(** * DataTest: HDFS folder sizes pushed to a Prometheus Pushgateway

    A shallow embedding of [src/main.py] and the properties of its two
    algorithms: the selection of the latest partition carrying a
    [control/merge.done] marker, and the recursive, bottom-up aggregation of
    folder sizes below that partition's [barrels/current].

    The HDFS client, the Pushgateway and the process configuration are
    external to the script; they are parameters of the model. *)

From Stdlib Require Import List String Ascii ZArith Bool Arith Lia.
From Stdlib Require Import Permutation DecimalString.
Import ListNotations.

Local Open Scope string_scope.
Local Open Scope Z_scope.

Set Implicit Arguments.
Set Warnings "-register-all".

(* ================================================================= *)
(** ** Python values and control flow *)

(** A call of an external collaborator ([client.list], [push_to_gateway])
    either returns or throws; [e] is the text of the exception, the [{e}]
    of the script's log messages. *)
Inductive attempt (A : Type) : Type :=
| Returned (a : A)
| Threw (e : string).
Arguments Threw {A} e.

(** How a call of one of the script's own functions ends: it returns, an
    exception escapes it, or the recursion budget of the model is used up.
    [Raised] is for the exceptions the model follows ([os.path.relpath] on
    an empty path).  [OutOfFuel] is what the model has for a recursion
    deeper than it was given; in CPython that recursion ends in a
    [RecursionError], which the script does not catch. *)
Inductive outcome (A : Type) : Type :=
| Done (a : A)
| Raised (exc : string)
| OutOfFuel.
Arguments Raised {A} exc.
Arguments OutOfFuel {A}.

(** One value of the [status=True] listing: the WebHDFS FileStatus object,
    of which the script reads [item["type"]] and [item["length"]]. *)
Record FileStatus : Type := mkStatus {
  item_type : string;
  item_length : Z
}.

Definition listing : Type := list (string * FileStatus).

(** [str(n)] of a Python int. *)
Definition str_of_int (n : Z) : string := NilZero.string_of_int (Z.to_int n).

Definition newline : string := String (ascii_of_nat 10) EmptyString.

(* ================================================================= *)
(** ** The pieces of [str] and [os.path] the script uses

    [os.path] is [posixpath]: HDFS paths are POSIX paths.  The functions
    follow CPython's [Lib/posixpath.py]; [cwd] stands for [os.getcwd()]. *)

Module Str.

(** [s.split(sep)] for a one-character separator: never empty. *)
Fixpoint split (sep : ascii) (s : string) : list string :=
  match s with
  | EmptyString => [EmptyString]
  | String c s' =>
      if Ascii.eqb c sep then EmptyString :: split sep s'
      else match split sep s' with
           | [] => [String c EmptyString]
           | word :: words => String c word :: words
           end
  end.

(** [s.replace(old, new)] for one-character [old] and [new]. *)
Fixpoint replace (old new : ascii) (s : string) : string :=
  match s with
  | EmptyString => EmptyString
  | String c s' => String (if Ascii.eqb c old then new else c) (replace old new s')
  end.

Fixpoint startswith (s pre : string) {struct pre} : bool :=
  match pre with
  | EmptyString => true
  | String a pre' =>
      match s with
      | EmptyString => false
      | String b s' => Ascii.eqb a b && startswith s' pre'
      end
  end.

(** [s.endswith(c)] for one character. *)
Fixpoint endswith (s : string) (c : ascii) : bool :=
  match s with
  | EmptyString => false
  | String d EmptyString => Ascii.eqb d c
  | String _ s' => endswith s' c
  end.

Definition is_empty (s : string) : bool := (s =? "")%string.

(** [c * n] *)
Fixpoint times (c : ascii) (n : nat) : string :=
  match n with
  | O => EmptyString
  | S n' => String c (times c n')
  end.

End Str.

Module posixpath.

Definition sep : ascii := "/"%char.

Definition isabs (s : string) : bool := Str.startswith s "/".

(** One round of the loop of [join(a, *p)]. *)
Definition join_step (path b : string) : string :=
  if Str.startswith b "/" then b
  else if Str.is_empty path || Str.endswith path sep then path ++ b
  else path ++ "/" ++ b.

Definition join (a : string) (p : list string) : string :=
  fold_left join_step p a.

(** One round of the loop of [normpath] over the components. *)
Definition normpath_step (initial_slashes : nat) (new_comps : list string)
    (comp : string) : list string :=
  if (comp =? "")%string || (comp =? ".")%string then new_comps
  else if negb (comp =? "..")%string
          || ((initial_slashes =? 0)%nat && (List.length new_comps =? 0)%nat)
          || (negb (List.length new_comps =? 0)%nat
              && (last new_comps "" =? "..")%string)
  then new_comps ++ [comp]
  else removelast new_comps.

Definition initial_slashes (path : string) : nat :=
  if Str.startswith path "/" then
    if Str.startswith path "//" && negb (Str.startswith path "///")
    then 2%nat else 1%nat
  else 0%nat.

Definition normpath (path : string) : string :=
  if Str.is_empty path then "."
  else
    let slashes := initial_slashes path in
    let comps := fold_left (normpath_step slashes) (Str.split sep path) [] in
    let path := Str.times sep slashes ++ String.concat "/" comps in
    if Str.is_empty path then "." else path.

Definition abspath (cwd path : string) : string :=
  if isabs path then normpath path else normpath (join cwd [path]).

(** [len(commonprefix([l1, l2]))] on two lists of components: the length
    of their longest common prefix. *)
Fixpoint commonprefix_len (l1 l2 : list string) : nat :=
  match l1, l2 with
  | x :: l1', y :: l2' =>
      if (x =? y)%string then S (commonprefix_len l1' l2') else O
  | _, _ => O
  end.

Definition components (abs : string) : list string :=
  filter (fun x => negb (Str.is_empty x)) (Str.split sep abs).

(** [relpath(path, start)] once [path] is known not to be empty. *)
Definition relpath_of (cwd path start : string) : string :=
  let start_list := components (abspath cwd start) in
  let path_list := components (abspath cwd path) in
  let i := commonprefix_len start_list path_list in
  let rel_list := (repeat ".." (List.length start_list - i) ++ skipn i path_list)%list in
  match rel_list with
  | [] => "."
  | a :: p => join a p
  end.

Definition relpath (cwd path start : string) : outcome string :=
  if Str.is_empty path then Raised "ValueError: no path specified"
  else Done (relpath_of cwd path start).

End posixpath.

(* ================================================================= *)
(** ** The world the script acts on *)

Inductive level : Type := INFO | WARNING | ERROR.

(** What one [push_to_gateway] call is given. *)
Record push_request : Type := mkPush {
  push_gateway : option string;
  push_job : string;
  push_grouping_key : list (string * option string);
  push_samples : list (string * Z)
}.

(** [file_size_metric] is the sequence of the
    [file_size_metric.labels(folder=l).set(v)] calls made on the gauge of
    the current registry, oldest first; [logged] is what [logging] emitted
    and [pushed] the pushes attempted, oldest first. *)
Record world : Type := mkWorld {
  file_size_metric : list (string * Z);
  logged : list (level * string);
  pushed : list push_request
}.

Definition empty_world : world := mkWorld [] [] [].

Definition logging (lv : level) (msg : string) (w : world) : world :=
  mkWorld (file_size_metric w) (logged w ++ [(lv, msg)])%list (pushed w).

(** [file_size_metric.labels(folder=rel_path).set(total_size)] *)
Definition labels_set (rel_path : string) (total_size : Z) (w : world) : world :=
  mkWorld (file_size_metric w ++ [(rel_path, total_size)])%list (logged w) (pushed w).

(** [registry = CollectorRegistry()] and the [Gauge] registered in it: a
    gauge without samples. *)
Definition new_registry (w : world) : world :=
  mkWorld [] (logged w) (pushed w).

Definition record_push (req : push_request) (w : world) : world :=
  mkWorld (file_size_metric w) (logged w) (pushed w ++ [req])%list.

(** The samples a gauge exposes: per label the value set last, labels in
    the order of their first [labels] call (a Python dict).  The values
    are the integers given to [set]; the gauge keeps [float(value)], which
    is that integer as long as its magnitude is at most [2^53]. *)
Fixpoint dict_set (label : string) (v : Z) (d : list (string * Z)) : list (string * Z) :=
  match d with
  | [] => [(label, v)]
  | (l, x) :: d' =>
      if (l =? label)%string then (l, v) :: d' else (l, x) :: dict_set label v d'
  end.

Definition collect (calls : list (string * Z)) : list (string * Z) :=
  fold_left (fun d c => dict_set (fst c) (snd c) d) calls [].

Definition JOB_NAME : string := "disk_usage".

(** [sorted(l)] on strings.  Python orders [str] by code point, which on
    UTF-8 encoded names is the byte order of [String.leb]. *)
Fixpoint insert_sorted (x : string) (l : list string) : list string :=
  match l with
  | [] => [x]
  | y :: l' => if (x <=? y)%string then x :: l else y :: insert_sorted x l'
  end.

Fixpoint sorted (l : list string) : list string :=
  match l with
  | [] => []
  | x :: l' => insert_sorted x (sorted l')
  end.

(* ================================================================= *)
(** ** The script *)

Section Script.

(** [client.list(path, status=True)] *)
Variable client_list : string -> attempt listing.
(** [push_to_gateway(...)] *)
Variable push_to_gateway : push_request -> attempt unit.
(** [os.environ.get("PUSHGATEWAY_URL")], [os.environ.get("SERVICE")] *)
Variables PushGW_url Service : option string.
(** [os.getcwd()] *)
Variable cwd : string.

Definition is_directory (item : FileStatus) : bool :=
  (item_type item =? "DIRECTORY")%string.

(** The [for name, item in statuses] loop of [list_dirs_recursive];
    [rec] is the recursive call. *)
Fixpoint sum_children (rec : string -> world -> outcome (Z * world))
    (path : string) (statuses : listing) (total_size : Z) (w : world)
    : outcome (Z * world) :=
  match statuses with
  | [] => Done (total_size, w)
  | (name, item) :: rest =>
      let full_path := path ++ "/" ++ name in
      if is_directory item then
        match rec full_path w with
        | Done (size, w') => sum_children rec path rest (total_size + size) w'
        | Raised e => Raised e
        | OutOfFuel => OutOfFuel
        end
      else
        let size := item_length item in
        sum_children rec path rest (total_size + size) w
  end.

(** Lines 78-82: the label of [path]. *)
Definition label_of (rel : string) : string :=
  let rel_path := Str.replace "\"%char "/"%char rel in
  if (rel_path =? ".")%string then "/" else "/" ++ rel_path.

(** [list_dirs_recursive(path, registry, file_size_metric, base_path)];
    the registry and its gauge are in the [world]. *)
Fixpoint list_dirs_recursive (fuel : nat) (path base_path : string) (w : world)
    : outcome (Z * world) :=
  match fuel with
  | O => OutOfFuel
  | S fuel' =>
      match client_list path with
      | Threw e =>
          Done (0, logging WARNING
                     ("There was an error while reading the folder "
                        ++ path ++ ": " ++ e) w)
      | Returned statuses =>
          match sum_children (fun p => list_dirs_recursive fuel' p base_path)
                  path statuses 0 w with
          | Done (total_size, w1) =>
              match posixpath.relpath cwd path base_path with
              | Done rel =>
                  let rel_path := label_of rel in
                  let w2 := labels_set rel_path total_size w1 in
                  let w3 := logging INFO ("   Folder: " ++ rel_path) w2 in
                  let w4 := logging INFO
                              ("       - Size: " ++ str_of_int total_size
                                 ++ " Bytes") w3 in
                  Done (total_size, w4)
              | Raised e => Raised e
              | OutOfFuel => OutOfFuel
              end
          | Raised e => Raised e
          | OutOfFuel => OutOfFuel
          end
      end
  end.

(** [has_merge_done(path)]; the loop that returns [True] at the first
    entry named [merge.done] and [False] after the last is [existsb]. *)
Definition has_merge_done (path : string) : bool :=
  let control_path := path ++ "/control" in
  match client_list control_path with
  | Threw _ => false
  | Returned statuses =>
      existsb (fun entry => (fst entry =? "merge.done")%string) statuses
  end.

(** Lines 116-121: the names appended to [valid_folders]. *)
Fixpoint valid_folders (root_path : string) (statuses : listing) : list string :=
  match statuses with
  | [] => []
  | (name, item) :: rest =>
      if is_directory item then
        let folder_path := root_path ++ "/" ++ name in
        if has_merge_done folder_path
        then name :: valid_folders root_path rest
        else valid_folders root_path rest
      else valid_folders root_path rest
  end.

(** Line 127: [sorted(valid_folders)[-1]] *)
Definition latest_of (valid : list string) : string := last (sorted valid) "".

Definition push_of (w : world) : push_request :=
  mkPush PushGW_url JOB_NAME [("instance", Service)]
         (collect (file_size_metric w)).

(** [process_latest_valid_folder(root_path)]; the function has no
    [return] with a value, so all it returns is [None]. *)
Definition process_latest_valid_folder (fuel : nat) (root_path : string)
    (w : world) : outcome (unit * world) :=
  match client_list root_path with
  | Threw e =>
      Done (tt, logging ERROR
                  ("The path could not be reached " ++ root_path ++ ": " ++ e) w)
  | Returned statuses =>
      let w := new_registry w in
      match valid_folders root_path statuses with
      | [] => Done (tt, logging INFO "❗ No folders with merge.done found." w)
      | (_ :: _) as valid =>
          let latest_folder := latest_of valid in
          let folder_path := root_path ++ "/" ++ latest_folder ++ "/barrels/current" in
          let w := logging INFO
                     (newline ++ "📁 Only latest folder is being browsed: "
                        ++ folder_path ++ ":" ++ newline) w in
          match list_dirs_recursive fuel folder_path folder_path w with
          | Done (_, w) =>
              let req := push_of w in
              let w := record_push req w in
              match push_to_gateway req with
              | Returned _ =>
                  Done (tt, logging INFO
                              (newline ++ "✅ Metrics were successfully pushed to the Pushgateway.") w)
              | Threw e =>
                  Done (tt, logging ERROR
                              (newline ++ "❌ An error occured while pushing the metrics: " ++ e) w)
              end
          | Raised e => Raised e
          | OutOfFuel => OutOfFuel
          end
      end
  end.

End Script.

(* ================================================================= *)
(** ** Directory trees

    What the client shows below one path, as a finite tree: a directory is
    either unreadable (its listing throws) or has the entries of its
    listing, each with the tree below it.  The tree kept with an entry that
    is not a directory is never looked at. *)

Inductive tree : Type :=
| Unreadable (e : string)
| Folder (children : list (string * FileStatus * tree)).

Definition entry_name (c : string * FileStatus * tree) : string := fst (fst c).
Definition entry_item (c : string * FileStatus * tree) : FileStatus := snd (fst c).
Definition entry_tree (c : string * FileStatus * tree) : tree := snd c.

(** [presents client_list path t]: the listings of [client_list] at [path]
    and below are those of [t]. *)
Inductive presents (client_list : string -> attempt listing) : string -> tree -> Prop :=
| presents_unreadable : forall path e,
    client_list path = Threw e ->
    presents client_list path (Unreadable e)
| presents_folder : forall path children,
    client_list path = Returned (map fst children) ->
    Forall (fun c => is_directory (entry_item c) = true ->
                     presents client_list (path ++ "/" ++ entry_name c) (entry_tree c))
           children ->
    presents client_list path (Folder children).

(** Number of nested [list_dirs_recursive] calls the tree needs. *)
Fixpoint height (t : tree) : nat :=
  match t with
  | Unreadable _ => 1%nat
  | Folder children =>
      S (fold_right (fun c h => if is_directory (entry_item c)
                                then Nat.max (height (entry_tree c)) h else h)
                    0%nat children)
  end.

(** The entries at any depth that are not directories. *)
Fixpoint leaves_below (t : tree) : list FileStatus :=
  match t with
  | Unreadable _ => []
  | Folder children =>
      flat_map (fun c => if is_directory (entry_item c)
                         then leaves_below (entry_tree c)
                         else [entry_item c]) children
  end.

Definition is_file (item : FileStatus) : bool := (item_type item =? "FILE")%string.

(** The FILE entries of the entire subtree, files at any depth. *)
Definition files_below (t : tree) : list FileStatus := filter is_file (leaves_below t).

Definition total_length (items : list FileStatus) : Z :=
  fold_right (fun item acc => item_length item + acc) 0 items.

(** Sum of the byte lengths of all FILE entries of the subtree. *)
Definition subtree_bytes (t : tree) : Z := total_length (files_below t).

(** The directories of the tree whose listing succeeds, children before
    their parent, each with the names leading to it from the top and with
    its own subtree. *)
Fixpoint folders_below (names : list string) (t : tree) : list (list string * tree) :=
  match t with
  | Unreadable _ => []
  | Folder children =>
      (flat_map (fun c => if is_directory (entry_item c)
                          then folders_below (names ++ [entry_name c]) (entry_tree c)
                          else []) children
         ++ [(names, t)])%list
  end.

(** [path/n1/.../nk], as the f-strings of the script build it. *)
Definition descend (names : list string) : string :=
  fold_right (fun name rest => "/" ++ name ++ rest) "" names.

(** Every entry of the tree is of kind FILE or DIRECTORY. *)
Fixpoint files_and_directories (t : tree) : bool :=
  match t with
  | Unreadable _ => true
  | Folder children =>
      forallb (fun c => if is_directory (entry_item c)
                        then files_and_directories (entry_tree c)
                        else is_file (entry_item c)) children
  end.

Fixpoint contains (c : ascii) (s : string) : bool :=
  match s with
  | EmptyString => false
  | String d s' => Ascii.eqb d c || contains c s'
  end.

(** A name a file system gives an entry: not empty, not [.] or [..], and
    without a path separator. *)
Definition proper_name (name : string) : bool :=
  negb (name =? "")%string && negb (name =? ".")%string
  && negb (name =? "..")%string && negb (contains "/"%char name).

(** Every directory of the tree has a proper name. *)
Fixpoint well_named (t : tree) : bool :=
  match t with
  | Unreadable _ => true
  | Folder children =>
      forallb (fun c => if is_directory (entry_item c)
                        then proper_name (entry_name c) && well_named (entry_tree c)
                        else true) children
  end.

(** A path with forward slashes for separators: what stands between two
    backslashes stays, and the pieces are joined again with slashes. *)
Definition forward_slashes (path : string) : string :=
  String.concat "/" (Str.split "\"%char path).

(** The label of the directory reached from the start path through
    [names]: ["/"] for the start path itself, otherwise ["/"] and the
    relative path [n1/.../nk] with forward slashes for separators. *)
Definition label_at (names : list string) : string :=
  match names with
  | [] => "/"
  | _ :: _ => "/" ++ forward_slashes (String.concat "/" names)
  end.

(** The label lines 78-82 compute for [path]. *)
Definition folder_label (cwd base_path path : string) : string :=
  label_of (posixpath.relpath_of cwd path base_path).

(** The partition selector's condition on a child [name] of the root:
    a DIRECTORY entry whose [control] subpath lists and has an entry named
    [merge.done]. *)
Definition eligible (client_list : string -> attempt listing)
    (root_path : string) (statuses : listing) (name : string) : Prop :=
  exists item control marker,
    In (name, item) statuses /\ item_type item = "DIRECTORY"
    /\ client_list (root_path ++ "/" ++ name ++ "/control") = Returned control
    /\ In ("merge.done", marker) control.

(** The reading of one listed directory of a walk from [start] with
    [base_path]: the label the script computes for its path, and the bytes
    of the leaves below it. *)
Definition reading_at (cwd base_path start : string) (d : list string * tree)
    : string * Z :=
  (folder_label cwd base_path (start ++ descend (fst d)),
   total_length (leaves_below (snd d))).

(** What the recursive call [rec] does for the entry [c] of the directory
    at [path], reached through [names]: it returns the bytes of the leaves
    below [c] and adds the readings of the directories below [c], up to
    [related]. *)
Definition child_walked (related : list (string * Z) -> list (string * Z) -> Prop)
    (reading : list string * tree -> string * Z)
    (rec : string -> world -> outcome (Z * world))
    (path : string) (names : list string) (c : string * FileStatus * tree) : Prop :=
  is_directory (entry_item c) = true ->
  forall w, exists w',
    rec (path ++ "/" ++ entry_name c) w
      = Done (total_length (leaves_below (entry_tree c)), w')
    /\ related (file_size_metric w')
               (file_size_metric w
                  ++ map reading (folders_below (names ++ [entry_name c]) (entry_tree c)))%list
    /\ pushed w' = pushed w.

(** Two clients that show the same entries at every path, in any order. *)
Definition same_up_to_order (c1 c2 : string -> attempt listing) : Prop :=
  forall path,
    match c1 path, c2 path with
    | Returned l1, Returned l2 => Permutation l1 l2
    | Threw _, Threw _ => True
    | _, _ => False
    end.

(** A component [normpath] keeps: not empty and without separator. *)
Definition kept_word (x : string) : Prop :=
  x <> "" /\ contains posixpath.sep x = false.

(* ================================================================= *)
(** ** Fake file systems for the scenarios *)

Definition FILE (n : Z) : FileStatus := mkStatus "FILE" n.
Definition DIRECTORY : FileStatus := mkStatus "DIRECTORY" 0.

(** A client that knows the listed paths and throws on any other. *)
Fixpoint fake_client (table : list (string * listing)) (path : string)
    : attempt listing :=
  match table with
  | [] => Threw ("File " ++ path ++ " does not exist.")
  | (p, l) :: rest =>
      if (p =? path)%string then Returned l else fake_client rest path
  end.

Definition complete : string := "/fulltext/volume/1/complete".
Definition current : string := complete ++ "/2024-02-01/barrels/current".

(** Three partitions, of which only [2024-02-01] has [control/merge.done];
    its [barrels/current] holds [a/file1], [a/b/file2] and [file3]. *)
Definition hdfs_three : string -> attempt listing :=
  fake_client
    [ (complete, [("2024-01-01", DIRECTORY); ("2024-02-01", DIRECTORY);
                  ("2024-03-01", DIRECTORY)]);
      (complete ++ "/2024-02-01/control", [("merge.done", FILE 0)]);
      (complete ++ "/2024-03-01/control", [("other.flag", FILE 0)]);
      (current, [("a", DIRECTORY); ("file3", FILE 10)]);
      (current ++ "/a", [("file1", FILE 100); ("b", DIRECTORY)]);
      (current ++ "/a/b", [("file2", FILE 50)]) ].

Definition tree_three : tree :=
  Folder [ ("a", DIRECTORY,
            Folder [ ("file1", FILE 100, Unreadable "");
                     ("b", DIRECTORY, Folder [("file2", FILE 50, Unreadable "")]) ]);
           ("file3", FILE 10, Unreadable "") ].

(** The same file system with every listing in another order. *)
Definition hdfs_three_reordered : string -> attempt listing :=
  fake_client
    [ (complete, [("2024-03-01", DIRECTORY); ("2024-01-01", DIRECTORY);
                  ("2024-02-01", DIRECTORY)]);
      (complete ++ "/2024-02-01/control", [("merge.done", FILE 0)]);
      (complete ++ "/2024-03-01/control", [("other.flag", FILE 0)]);
      (current, [("file3", FILE 10); ("a", DIRECTORY)]);
      (current ++ "/a", [("b", DIRECTORY); ("file1", FILE 100)]);
      (current ++ "/a/b", [("file2", FILE 50)]) ].

(** [barrels/current] with an empty directory [e], a directory [x] whose
    listing throws and a file [f] of 7 bytes. *)
Definition hdfs_fault : string -> attempt listing :=
  fake_client
    [ (complete, [("2024-02-01", DIRECTORY)]);
      (complete ++ "/2024-02-01/control", [("merge.done", FILE 0)]);
      (current, [("e", DIRECTORY); ("x", DIRECTORY); ("f", FILE 7)]);
      (current ++ "/e", []) ].

Definition tree_fault : tree :=
  Folder [ ("e", DIRECTORY, Folder []);
           ("x", DIRECTORY,
            Unreadable ("File " ++ current ++ "/x does not exist."));
           ("f", FILE 7, Unreadable "") ].

(** No partition has the marker. *)
Definition hdfs_unmerged : string -> attempt listing :=
  fake_client
    [ (complete, [("2024-01-01", DIRECTORY); ("2024-03-01", DIRECTORY);
                  ("notes.txt", FILE 12)]);
      (complete ++ "/2024-03-01/control", [("other.flag", FILE 0)]) ].

(** The root itself cannot be listed. *)
Definition hdfs_down : string -> attempt listing := fake_client [].

(** A merged partition without [barrels/current]. *)
Definition hdfs_no_barrels : string -> attempt listing :=
  fake_client
    [ (complete, [("2024-02-01", DIRECTORY)]);
      (complete ++ "/2024-02-01/control", [("merge.done", FILE 0)]) ].

(** [hdfs_fault] without the directory [x]. *)
Definition hdfs_sound : string -> attempt listing :=
  fake_client
    [ (complete, [("2024-02-01", DIRECTORY)]);
      (complete ++ "/2024-02-01/control", [("merge.done", FILE 0)]);
      (current, [("e", DIRECTORY); ("f", FILE 7)]);
      (current ++ "/e", []) ].

Definition gateway_up (req : push_request) : attempt unit := Returned tt.
Definition gateway_down (req : push_request) : attempt unit :=
  Threw "Connection refused".

Definition gateway_url : option string := Some "http://localhost:9091".
Definition service : option string := Some "Fulltext-production".
Definition home : string := "/home/monitor".

(** Proves [presents] for a fake client and a given tree. *)
Ltac show_presents :=
  repeat first
    [ apply presents_folder; [reflexivity|]
    | apply presents_unreadable; reflexivity
    | apply Forall_cons
    | apply Forall_nil
    | intro; try discriminate ].

(* ================================================================= *)
(** ** What a walk logs, and more about trees *)

(** The record of line 66 for the directory at [path]. *)
Definition warning_of (path e : string) : level * string :=
  (WARNING, "There was an error while reading the folder " ++ path ++ ": " ++ e).

(** The two records of lines 86-87 for one reading. *)
Definition info_of (reading : string * Z) : list (level * string) :=
  [ (INFO, "   Folder: " ++ fst reading);
    (INFO, "       - Size: " ++ str_of_int (snd reading) ++ " Bytes") ].

Definition is_warning (record : level * string) : bool :=
  match fst record with
  | WARNING => true
  | _ => false
  end.

Definition is_info (record : level * string) : bool :=
  match fst record with
  | INFO => true
  | _ => false
  end.

(** The records of a walk of the tree, in the order of the walk. *)
Fixpoint walk_log (cwd base_path start : string) (names : list string) (t : tree)
    : list (level * string) :=
  match t with
  | Unreadable e => [warning_of (start ++ descend names) e]
  | Folder children =>
      (flat_map (fun c => if is_directory (entry_item c)
                          then walk_log cwd base_path start
                                        (names ++ [entry_name c]) (entry_tree c)
                          else []) children
         ++ info_of (reading_at cwd base_path start (names, t)))%list
  end.

(** The directories of the tree whose listing throws, in the order of the
    walk, each with the names leading to it and the text of its exception. *)
Fixpoint unreadable_below (names : list string) (t : tree)
    : list (list string * string) :=
  match t with
  | Unreadable e => [(names, e)]
  | Folder children =>
      flat_map (fun c => if is_directory (entry_item c)
                         then unreadable_below (names ++ [entry_name c]) (entry_tree c)
                         else []) children
  end.

(** What the recursive call [rec] logs for the entry [c] of the directory
    at [path], reached through [names]. *)
Definition child_logged (cwd base_path start : string)
    (rec : string -> world -> outcome (Z * world))
    (path : string) (names : list string) (c : string * FileStatus * tree) : Prop :=
  is_directory (entry_item c) = true ->
  forall w, exists w',
    rec (path ++ "/" ++ entry_name c) w
      = Done (total_length (leaves_below (entry_tree c)), w')
    /\ logged w'
       = (logged w
            ++ walk_log cwd base_path start (names ++ [entry_name c]) (entry_tree c))%list.

(** No entry that is not a directory has a negative length. *)
Fixpoint lengths_not_negative (t : tree) : bool :=
  match t with
  | Unreadable _ => true
  | Folder children =>
      forallb (fun c => if is_directory (entry_item c)
                        then lengths_not_negative (entry_tree c)
                        else (0 <=? item_length (entry_item c))) children
  end.

Fixpoint distinct (l : list string) : bool :=
  match l with
  | [] => true
  | x :: l' => negb (existsb (String.eqb x) l') && distinct l'
  end.

(** The names of the entries of a listing that are directories. *)
Definition directory_names (children : list (string * FileStatus * tree))
    : list string :=
  map entry_name (filter (fun c => is_directory (entry_item c)) children).

(** In every listing of the tree the directories have names of their own,
    and no directory has a backslash in its name. *)
Fixpoint distinct_names (t : tree) : bool :=
  match t with
  | Unreadable _ => true
  | Folder children =>
      distinct (directory_names children)
      && forallb (fun c => if is_directory (entry_item c)
                           then negb (contains "\"%char (entry_name c))
                                && distinct_names (entry_tree c)
                           else true) children
  end.

(** A label as line 84 gives the gauge: it starts with a slash and has no
    backslash. *)
Definition label_ok (label : string) : bool :=
  Str.startswith label "/" && negb (contains "\"%char label).

(** The empty path lists a directory and a file. *)
Definition hdfs_unnamed : string -> attempt listing :=
  fake_client [ ("", [("d", DIRECTORY); ("f", FILE 3)]);
                ("/d", [("g", FILE 4)]) ].

Definition tree_unnamed : tree :=
  Folder [ ("d", DIRECTORY, Folder [("g", FILE 4, Unreadable "")]);
           ("f", FILE 3, Unreadable "") ].

(** [barrels/current] with a directory whose name has a backslash. *)
Definition hdfs_backslash : string -> attempt listing :=
  fake_client
    [ (current, [("x\y", DIRECTORY); ("f", FILE 1)]);
      (current ++ "/x\y", [("g", FILE 2)]) ].

Definition tree_backslash : tree :=
  Folder [ ("x\y", DIRECTORY, Folder [("g", FILE 2, Unreadable "")]);
           ("f", FILE 1, Unreadable "") ].

Unset Implicit Arguments.

(* ================================================================= *)
(** ** Strings *)

Lemma append_nil_r (s : string) : s ++ "" = s.
Proof. induction s as [|c s IH]; simpl; [reflexivity | now rewrite IH]. Qed.

Lemma append_assoc (a b c : string) : (a ++ b) ++ c = a ++ b ++ c.
Proof. induction a as [|x a IH]; simpl; [reflexivity | now rewrite IH]. Qed.

Lemma append_empty (a b : string) : a ++ b = "" -> a = "".
Proof. destruct a; simpl; [reflexivity | discriminate]. Qed.

Lemma descend_snoc (names : list string) (name : string) :
  descend (names ++ [name]) = descend names ++ "/" ++ name.
Proof.
  induction names as [|n names IH]; simpl.
  - now rewrite append_nil_r.
  - rewrite IH. f_equal. now rewrite append_assoc.
Qed.

Lemma is_empty_false (s : string) : s <> "" -> Str.is_empty s = false.
Proof. intro H. now apply String.eqb_neq. Qed.

(* ================================================================= *)
(** ** The samples of the gauge *)

Lemma dict_set_new (label : string) (v : Z) (d : list (string * Z)) :
  ~ In label (map fst d) -> dict_set label v d = (d ++ [(label, v)])%list.
Proof.
  induction d as [|[l x] d IH]; simpl; intro H; [reflexivity|].
  destruct (l =? label)%string eqn:E.
  - apply String.eqb_eq in E. tauto.
  - rewrite IH; tauto.
Qed.

(** When every label is set once, the gauge exposes the readings as they
    were recorded. *)
Lemma collect_distinct (calls : list (string * Z)) :
  NoDup (map fst calls) -> collect calls = calls.
Proof.
  unfold collect.
  enough (H : forall l acc : list (string * Z),
             NoDup (map fst (acc ++ l)) ->
             fold_left (fun d c => dict_set (fst c) (snd c) d) l acc = (acc ++ l)%list)
    by (intro Hn; exact (H calls [] Hn)).
  induction l as [|[label v] l IH]; intros acc Hn; simpl.
  - now rewrite app_nil_r.
  - rewrite dict_set_new.
    + rewrite IH, <- app_assoc; [reflexivity|]. now rewrite <- app_assoc.
    + rewrite map_app in Hn. simpl in Hn. apply NoDup_remove_2 in Hn.
      intro Hin. apply Hn. apply in_or_app. now left.
Qed.

(* ================================================================= *)
(** ** Sums over trees *)

Lemma total_length_app (l1 l2 : list FileStatus) :
  total_length (l1 ++ l2) = total_length l1 + total_length l2.
Proof. induction l1 as [|x l1 IH]; simpl; [reflexivity | rewrite IH; lia]. Qed.

Lemma total_length_perm (l1 l2 : list FileStatus) :
  Permutation l1 l2 -> total_length l1 = total_length l2.
Proof. induction 1; simpl; lia. Qed.

Lemma height_pos (t : tree) : (1 <= height t)%nat.
Proof. destruct t; simpl; lia. Qed.

Lemma height_child (children : list (string * FileStatus * tree)) (fuel : nat) :
  (height (Folder children) <= S fuel)%nat ->
  Forall (fun c => is_directory (entry_item c) = true ->
                   (height (entry_tree c) <= fuel)%nat) children.
Proof.
  simpl. intro H. apply le_S_n in H. revert H.
  induction children as [|c cs IH]; simpl; intro H; constructor.
  - intro Hd. rewrite Hd in H. lia.
  - apply IH. destruct (is_directory (entry_item c)); lia.
Qed.

Lemma filter_all (A : Type) (f : A -> bool) (l : list A) :
  forallb f l = true -> filter f l = l.
Proof.
  induction l as [|x l IH]; simpl; [reflexivity|].
  intro H. apply andb_prop in H as [Hx Hl]. rewrite Hx. now rewrite IH.
Qed.

Lemma forallb_app_intro (A : Type) (f : A -> bool) (l1 l2 : list A) :
  forallb f l1 = true -> forallb f l2 = true -> forallb f (l1 ++ l2) = true.
Proof. intros H1 H2. rewrite forallb_app, H1, H2. reflexivity. Qed.

(** In a tree of files and directories every leaf is a FILE entry. *)
Lemma leaves_are_files (fuel : nat) : forall t,
  (height t <= fuel)%nat ->
  files_and_directories t = true -> forallb is_file (leaves_below t) = true.
Proof.
  induction fuel as [|fuel IH]; intros t Hh Hk.
  - pose proof (height_pos t). lia.
  - destruct t as [e|children]; [reflexivity|].
    apply height_child in Hh. simpl in Hk |- *.
    induction children as [|c cs IHcs]; simpl in *; [reflexivity|].
    apply andb_prop in Hk as [Hc Hcs].
    apply Forall_cons_iff in Hh as [Hhc Hhcs].
    apply forallb_app_intro; [|now apply IHcs].
    destruct (is_directory (entry_item c)).
    + now apply IH; [apply Hhc|].
    + simpl. now rewrite Hc.
Qed.

Lemma files_below_leaves (t : tree) :
  files_and_directories t = true -> files_below t = leaves_below t.
Proof.
  intro H. unfold files_below. apply filter_all.
  now apply (leaves_are_files (height t)).
Qed.

(* ================================================================= *)
(** ** The walk computes the tree's sums *)

Section Loop.

Variables cwd base_path start : string.
Variable related : list (string * Z) -> list (string * Z) -> Prop.
Hypothesis related_refl : forall l, related l l.
Hypothesis related_trans : forall a b c, related a b -> related b c -> related a c.
Hypothesis related_app : forall a b c, related a b -> related (a ++ c) (b ++ c).

Local Abbreviation reading := (reading_at cwd base_path start).

(** The loop over the entries of one listing adds up the leaves below
    the entries and records the readings of the directories below them. *)
Lemma sum_children_spec (rec : string -> world -> outcome (Z * world))
    (path : string) (names : list string) :
  forall children : list (string * FileStatus * tree),
  Forall (child_walked related reading rec path names) children ->
  forall total_size w, exists w',
    sum_children rec path (map fst children) total_size w
      = Done (total_size + total_length (leaves_below (Folder children)), w')
    /\ related (file_size_metric w')
         (file_size_metric w
            ++ map reading
                 (flat_map (fun c => if is_directory (entry_item c)
                                     then folders_below (names ++ [entry_name c])
                                                        (entry_tree c)
                                     else []) children))%list
    /\ pushed w' = pushed w.
Proof.
  induction children as [|[[name item] sub] cs IH]; intros Hall total_size w.
  - exists w. simpl. rewrite Z.add_0_r, app_nil_r. auto.
  - apply Forall_cons_iff in Hall as [Hc Hcs].
    cbn [map fst sum_children].
    unfold child_walked, entry_item, entry_name, entry_tree in Hc.
    cbn [fst snd] in Hc.
    cbn [leaves_below flat_map entry_item entry_name entry_tree fst snd].
    destruct (is_directory item) eqn:Hd.
    + destruct (Hc eq_refl w) as (w1 & E1 & M1 & P1).
      rewrite E1.
      destruct (IH Hcs (total_size + total_length (leaves_below sub)) w1)
        as (w2 & E2 & M2 & P2).
      exists w2. rewrite E2. split; [|split].
      * f_equal. f_equal. cbn [leaves_below].
        rewrite total_length_app. lia.
      * rewrite map_app, app_assoc.
        eapply related_trans; [exact M2|]. now apply related_app.
      * congruence.
    + destruct (IH Hcs (total_size + item_length item) w) as (w2 & E2 & M2 & P2).
      exists w2. rewrite E2. split; [|split]; auto.
      f_equal. f_equal. cbn [leaves_below app].
      change (total_length (item :: ?l)) with (item_length item + total_length l).
      lia.
Qed.

End Loop.

Section Walk.

Variable client_list : string -> attempt listing.
Variable cwd : string.
Variable base_path : string.
Variable start : string.
Hypothesis start_given : start <> "".

Local Abbreviation walk := (list_dirs_recursive client_list cwd).
Local Abbreviation reading := (reading_at cwd base_path start).

(** A walk with enough fuel returns the bytes of the leaves of the tree
    and records one reading per listed directory, children first. *)
Lemma walk_spec : forall fuel names t w,
  presents client_list (start ++ descend names) t ->
  (height t <= fuel)%nat ->
  exists w',
    walk fuel (start ++ descend names) base_path w
      = Done (total_length (leaves_below t), w')
    /\ file_size_metric w'
       = (file_size_metric w ++ map reading (folders_below names t))%list
    /\ pushed w' = pushed w.
Proof.
  induction fuel as [|fuel IH]; intros names t w Hp Hh.
  - pose proof (height_pos t). lia.
  - inversion Hp as [path e Hl | path children Hl Hsub]; subst.
    + cbn [list_dirs_recursive]. rewrite Hl.
      eexists. split; [reflexivity|]. simpl. rewrite app_nil_r. auto.
    + apply height_child in Hh.
      assert (Hall : Forall (child_walked eq reading
                               (fun p => walk fuel p base_path)
                               (start ++ descend names) names) children).
      { rewrite Forall_forall in *. intros c Hin Hd w0.
        specialize (IH (names ++ [entry_name c])%list (entry_tree c) w0).
        rewrite descend_snoc, <- append_assoc in IH.
        apply IH; auto. }
      destruct (sum_children_spec cwd base_path start eq
                  (@eq_refl _) (@eq_trans _)
                  (fun a b c E => f_equal (fun l => (l ++ c)%list) E)
                  _ _ names children Hall 0 w) as (w1 & E1 & M1 & P1).
      cbn [list_dirs_recursive]. rewrite Hl, E1.
      unfold posixpath.relpath. rewrite is_empty_false.
      * eexists. split; [rewrite Z.add_0_l; reflexivity|].
        cbn [file_size_metric pushed logging labels_set folders_below].
        rewrite M1, map_app, <- app_assoc. split; [|exact P1].
        reflexivity.
      * intro E. apply append_empty in E. contradiction.
Qed.

End Walk.

Section Reordered.

Variables c1 c2 : string -> attempt listing.
Hypothesis reordered : same_up_to_order c1 c2.
Variable cwd : string.
Variable base_path : string.
Variable start : string.
Hypothesis start_given : start <> "".

Local Abbreviation reading := (reading_at cwd base_path start).

(** A walk over the reordered listings returns the same bytes and records
    the same readings, in another order. *)
Lemma walk_reordered : forall fuel names t w,
  presents c1 (start ++ descend names) t ->
  (height t <= fuel)%nat ->
  exists w',
    list_dirs_recursive c2 cwd fuel (start ++ descend names) base_path w
      = Done (total_length (leaves_below t), w')
    /\ Permutation (file_size_metric w')
         (file_size_metric w ++ map reading (folders_below names t))
    /\ pushed w' = pushed w.
Proof.
  induction fuel as [|fuel IH]; intros names t w Hp Hh.
  - pose proof (height_pos t). lia.
  - pose proof (reordered (start ++ descend names)) as Hsame.
    inversion Hp as [path e Hl | path children Hl Hsub]; subst;
      rewrite Hl in Hsame;
      destruct (c2 (start ++ descend names)) as [l2|e2] eqn:Hl2;
      try contradiction.
    + cbn [list_dirs_recursive]. rewrite Hl2.
      eexists. split; [reflexivity|]. simpl. rewrite app_nil_r. auto.
    + apply height_child in Hh.
      apply Permutation_sym, Permutation_map_inv in Hsame
        as (children2 & -> & Hperm).
      assert (Hall : Forall (child_walked (@Permutation _) reading
                               (fun p => list_dirs_recursive c2 cwd fuel p base_path)
                               (start ++ descend names) names) children2).
      { apply (Permutation_Forall Hperm).
        rewrite Forall_forall in *. intros c Hin Hd w0.
        specialize (IH (names ++ [entry_name c])%list (entry_tree c) w0).
        rewrite descend_snoc, <- append_assoc in IH.
        apply IH; auto. }
      destruct (sum_children_spec cwd base_path start (@Permutation _)
                  (@Permutation_refl _) (@Permutation_trans _)
                  (fun a b c E => Permutation_app_tail c E)
                  _ _ names children2 Hall 0 w) as (w1 & E1 & M1 & P1).
      assert (Etot : total_length (leaves_below (Folder children2))
                     = total_length (leaves_below (Folder children))).
      { cbn [leaves_below].
        apply total_length_perm, Permutation_flat_map, Permutation_sym, Hperm. }
      rewrite Z.add_0_l, Etot in E1.
      cbn [list_dirs_recursive]. rewrite Hl2, E1.
      unfold posixpath.relpath. rewrite is_empty_false.
      * eexists. split; [reflexivity|]. split; [|exact P1].
        cbn [file_size_metric pushed logging labels_set folders_below].
        rewrite map_app, app_assoc.
        apply Permutation_app; [|reflexivity].
        etransitivity; [exact M1|]. apply Permutation_app_head.
        apply Permutation_map, Permutation_flat_map, Permutation_sym, Hperm.
      * intro E. apply append_empty in E. contradiction.
Qed.

End Reordered.

(* ================================================================= *)
(** ** [posixpath.relpath] below the start path *)

Lemma split_not_nil (s : string) : Str.split posixpath.sep s <> [].
Proof.
  destruct s as [|c s]; simpl; [discriminate|].
  destruct (Ascii.eqb c posixpath.sep); [discriminate|].
  destruct (Str.split posixpath.sep s); discriminate.
Qed.

Lemma split_plain (n s : string) :
  contains posixpath.sep n = false ->
  Str.split posixpath.sep (n ++ s)
  = match Str.split posixpath.sep s with
    | [] => [n]
    | word :: words => (n ++ word) :: words
    end.
Proof.
  induction n as [|c n IH]; simpl; intro H.
  - destruct (Str.split posixpath.sep s) eqn:E; [|reflexivity].
    now apply split_not_nil in E.
  - apply orb_false_elim in H as [Hc Hn]. rewrite Hc, (IH Hn).
    destruct (Str.split posixpath.sep s); reflexivity.
Qed.

Lemma split_descend (names : list string) :
  Forall (fun n => contains posixpath.sep n = false) names ->
  Str.split posixpath.sep (descend names) = "" :: names.
Proof.
  induction 1 as [|n names Hn Hns IH]; [reflexivity|].
  cbn [descend fold_right]. change (Str.split posixpath.sep ("/" ++ ?s)) with ("" :: Str.split posixpath.sep s).
  f_equal. fold (descend names). rewrite split_plain by exact Hn. rewrite IH.
  now rewrite append_nil_r.
Qed.

Lemma split_append (y s : string) (names : list string) :
  Str.split posixpath.sep s = "" :: names ->
  Str.split posixpath.sep (y ++ s) = (Str.split posixpath.sep y ++ names)%list.
Proof.
  intro Hs. induction y as [|c y IH]; simpl; [exact Hs|].
  rewrite IH. destruct (Ascii.eqb c posixpath.sep); [reflexivity|].
  destruct (Str.split posixpath.sep y) eqn:E; [now apply split_not_nil in E | reflexivity].
Qed.

Lemma split_plain_words (s : string) :
  Forall (fun n => contains posixpath.sep n = false) (Str.split posixpath.sep s).
Proof.
  induction s as [|c s IH]; simpl; [repeat constructor|].
  destruct (Ascii.eqb c posixpath.sep) eqn:Hc; [constructor; auto|].
  destruct (Str.split posixpath.sep s) as [|word words]; [repeat constructor; simpl; now rewrite Hc|].
  apply Forall_cons_iff in IH as [Hw Hws]. constructor; [|exact Hws].
  simpl. now rewrite Hc, Hw.
Qed.

Lemma proper_name_inv (n : string) :
  proper_name n = true ->
  n <> "" /\ n <> "." /\ n <> ".." /\ contains posixpath.sep n = false.
Proof.
  unfold proper_name. intro H.
  repeat (apply andb_prop in H as [H ?]).
  repeat match goal with
         | X : negb _ = true |- _ => apply negb_true_iff in X
         end.
  repeat split; try (now apply String.eqb_neq); assumption.
Qed.

Lemma normpath_step_slashes (a b : nat) (acc : list string) (comp : string) :
  (0 < a)%nat -> (0 < b)%nat ->
  posixpath.normpath_step a acc comp = posixpath.normpath_step b acc comp.
Proof.
  intros Ha Hb. unfold posixpath.normpath_step.
  destruct a; [lia|]. destruct b; [lia|]. reflexivity.
Qed.

Lemma normpath_fold_slashes (a b : nat) (comps acc : list string) :
  (0 < a)%nat -> (0 < b)%nat ->
  fold_left (posixpath.normpath_step a) comps acc
  = fold_left (posixpath.normpath_step b) comps acc.
Proof.
  intros Ha Hb. revert acc.
  induction comps as [|c comps IH]; intro acc; simpl; [reflexivity|].
  now rewrite IH, (normpath_step_slashes a b acc c Ha Hb).
Qed.

Lemma normpath_step_proper (k : nat) (acc : list string) (n : string) :
  proper_name n = true -> posixpath.normpath_step k acc n = (acc ++ [n])%list.
Proof.
  intro H. apply proper_name_inv in H as (H1 & H2 & H3 & _).
  unfold posixpath.normpath_step.
  apply String.eqb_neq in H1, H2, H3. now rewrite H1, H2, H3.
Qed.

Lemma normpath_fold_proper (k : nat) (names acc : list string) :
  Forall (fun n => proper_name n = true) names ->
  fold_left (posixpath.normpath_step k) names acc = (acc ++ names)%list.
Proof.
  intro H. revert acc.
  induction H as [|n names Hn Hns IH]; intro acc; simpl.
  - now rewrite app_nil_r.
  - rewrite normpath_step_proper by exact Hn. rewrite IH, <- app_assoc. reflexivity.
Qed.

Lemma Forall_removelast (A : Type) (P : A -> Prop) (l : list A) :
  Forall P l -> Forall P (removelast l).
Proof.
  induction 1 as [|x l Hx Hl IH]; simpl; [constructor|].
  destruct l; [constructor | now constructor].
Qed.

Lemma normpath_fold_kept (k : nat) (comps : list string) :
  Forall (fun n => contains posixpath.sep n = false) comps ->
  forall acc, Forall kept_word acc ->
  Forall kept_word (fold_left (posixpath.normpath_step k) comps acc).
Proof.
  induction 1 as [|c comps Hc Hcs IH]; intros acc Hacc; simpl; [exact Hacc|].
  apply IH. unfold posixpath.normpath_step.
  destruct (c =? "")%string eqn:E; [exact Hacc|].
  destruct (c =? ".")%string; [exact Hacc|]. cbn [orb].
  match goal with |- Forall _ (if ?b then _ else _) => destruct b end.
  - apply Forall_app. split; [exact Hacc|].
    constructor; [|constructor]. split; [now apply String.eqb_neq | exact Hc].
  - now apply Forall_removelast.
Qed.

Lemma concat_cons (a : string) (p : list string) :
  String.concat "/" (a :: p) = a ++ descend p.
Proof.
  revert a. induction p as [|b p IH]; intro a; simpl.
  - now rewrite append_nil_r.
  - f_equal. f_equal. specialize (IH b). simpl in IH. destruct p; simpl in *.
    + now rewrite append_nil_r.
    + exact IH.
Qed.

Lemma components_concat (words : list string) :
  Forall kept_word words ->
  posixpath.components (String.concat "/" words) = words.
Proof.
  destruct words as [|a p]; intro H; [reflexivity|].
  rewrite concat_cons. apply Forall_cons_iff in H as [[Hne Ha] Hp].
  unfold posixpath.components. rewrite split_plain by exact Ha.
  rewrite split_descend.
  - rewrite append_nil_r. cbn [filter].
    apply String.eqb_neq in Hne. unfold Str.is_empty. rewrite Hne. cbn [negb].
    f_equal. apply filter_all. apply forallb_forall. intros x Hx.
    rewrite Forall_forall in Hp. destruct (Hp x Hx) as [Hx' _].
    apply negb_true_iff. now apply String.eqb_neq.
  - eapply Forall_impl; [|exact Hp]. now intros x [_ Hx].
Qed.

Lemma components_slashes (k : nat) (r : string) :
  posixpath.components (Str.times posixpath.sep k ++ r) = posixpath.components r.
Proof.
  induction k as [|k IH]; [reflexivity|].
  unfold posixpath.components in *. simpl. exact IH.
Qed.

Lemma commonprefix_len_app (l names : list string) :
  posixpath.commonprefix_len l (l ++ names) = List.length l.
Proof.
  induction l as [|x l IH]; simpl.
  - destruct names; reflexivity.
  - now rewrite String.eqb_refl, IH.
Qed.

Lemma startswith_append (s d : string) :
  s <> "" -> Str.startswith (s ++ d) "/" = Str.startswith s "/".
Proof. destruct s; [contradiction | reflexivity]. Qed.

Lemma startswith_given (s : string) : Str.startswith s "/" = true -> s <> "".
Proof. destruct s; [discriminate | discriminate]. Qed.

Lemma initial_slashes_pos (s : string) :
  Str.startswith s "/" = true -> (0 < posixpath.initial_slashes s)%nat.
Proof.
  intro H. unfold posixpath.initial_slashes. rewrite H.
  destruct (_ && _); lia.
Qed.

Lemma times_pos_not_empty (k : nat) (r : string) :
  (0 < k)%nat -> Str.is_empty (Str.times posixpath.sep k ++ r) = false.
Proof. destruct k; [lia | reflexivity]. Qed.

(** [normpath] of an absolute path, and of the paths built below it. *)
Lemma normpath_below (y : string) :
  posixpath.isabs y = true ->
  exists k words,
    (0 < k)%nat /\ Forall kept_word words
    /\ posixpath.normpath y = Str.times posixpath.sep k ++ String.concat "/" words
    /\ forall names, Forall (fun n => proper_name n = true) names ->
       exists k', (0 < k')%nat
         /\ posixpath.normpath (y ++ descend names)
            = Str.times posixpath.sep k' ++ String.concat "/" (words ++ names).
Proof.
  intro Habs. unfold posixpath.isabs in Habs.
  pose proof (startswith_given _ Habs) as Hy.
  pose proof (initial_slashes_pos _ Habs) as Hk.
  exists (posixpath.initial_slashes y),
         (fold_left (posixpath.normpath_step (posixpath.initial_slashes y))
                    (Str.split posixpath.sep y) []).
  split; [exact Hk|]. split; [|split].
  - apply normpath_fold_kept; [apply split_plain_words | constructor].
  - unfold posixpath.normpath. rewrite (is_empty_false _ Hy).
    cbv zeta. now rewrite times_pos_not_empty.
  - intros names Hnames.
    assert (Habs' : Str.startswith (y ++ descend names) "/" = true)
      by now rewrite startswith_append.
    pose proof (initial_slashes_pos _ Habs') as Hk'.
    exists (posixpath.initial_slashes (y ++ descend names)).
    split; [exact Hk'|].
    unfold posixpath.normpath.
    rewrite (is_empty_false _ (startswith_given _ Habs')). cbv zeta.
    rewrite times_pos_not_empty by exact Hk'. f_equal. f_equal.
    rewrite (split_append y _ names).
    + rewrite fold_left_app, normpath_fold_proper by exact Hnames.
      f_equal. now apply normpath_fold_slashes.
    + apply split_descend. eapply Forall_impl; [|exact Hnames].
      intros n Hn. now apply proper_name_inv in Hn.
Qed.

(** [abspath] of the start path and of the paths built below it are
    [normpath] of one absolute path and of the paths built below that. *)
Lemma abspath_below (cwd start : string) :
  posixpath.isabs cwd = true -> start <> "" ->
  exists y, posixpath.isabs y = true
    /\ posixpath.abspath cwd start = posixpath.normpath y
    /\ forall d, posixpath.abspath cwd (start ++ d) = posixpath.normpath (y ++ d).
Proof.
  intros Hcwd Hstart. unfold posixpath.abspath, posixpath.isabs in *.
  destruct (Str.startswith start "/") eqn:Habs.
  - exists start. split; [exact Habs|]. split; [reflexivity|].
    intro d. now rewrite startswith_append, Habs.
  - exists (posixpath.join_step cwd start).
    unfold posixpath.join, posixpath.join_step. cbn [fold_left].
    rewrite Habs. split; [|split; [reflexivity|]].
    + destruct (_ || _); rewrite startswith_append;
        auto using startswith_given.
    + intro d. rewrite startswith_append, Habs by exact Hstart.
      destruct (_ || _); now rewrite !append_assoc.
Qed.

Lemma endswith_plain (a : string) :
  a <> "" -> contains posixpath.sep a = false ->
  forall b, Str.endswith (b ++ a) posixpath.sep = false.
Proof.
  intros Hne Ha. induction b as [|c b IH]; simpl.
  - clear Hne. induction a as [|c a IH]; [reflexivity|].
    simpl in Ha. apply orb_false_elim in Ha as [Hc Ha'].
    simpl. destruct a; [exact Hc | now apply IH].
  - destruct (b ++ a) eqn:E; [|exact IH].
    pose proof (append_empty _ _ E). subst b. simpl in E. contradiction.
Qed.

Lemma startswith_plain (a : string) :
  contains posixpath.sep a = false -> Str.startswith a "/" = false.
Proof.
  destruct a as [|c a]; [reflexivity|]. intro H.
  cbn [contains] in H. apply orb_false_elim in H as [Hc _].
  cbn [Str.startswith]. rewrite Ascii.eqb_sym.
  unfold posixpath.sep in Hc. now rewrite Hc.
Qed.

Lemma join_proper (p : list string) :
  Forall (fun n => proper_name n = true) p ->
  forall a b, a <> "" -> contains posixpath.sep a = false ->
  posixpath.join (b ++ a) p = (b ++ a) ++ descend p.
Proof.
  unfold posixpath.join.
  induction 1 as [|n p Hn Hp IH]; intros a b Ha Hsep; simpl.
  - now rewrite append_nil_r.
  - apply proper_name_inv in Hn as (Hne & _ & _ & Hn).
    unfold posixpath.join_step at 2.
    rewrite (startswith_plain _ Hn), (endswith_plain _ Ha Hsep).
    assert (E : Str.is_empty (b ++ a) = false).
    { apply is_empty_false. intro E. destruct b; simpl in E; [contradiction | discriminate]. }
    rewrite E. cbn [orb].
    replace ((b ++ a) ++ "/" ++ n) with ((b ++ a ++ "/") ++ n)
      by now rewrite !append_assoc.
    rewrite (IH n (b ++ a ++ "/") Hne Hn). now rewrite !append_assoc.
Qed.

(** The path of a directory below the start path, relative to it. *)
Lemma relpath_below (cwd start : string) (names : list string) :
  posixpath.isabs cwd = true -> start <> "" ->
  Forall (fun n => proper_name n = true) names ->
  posixpath.relpath_of cwd (start ++ descend names) start
  = match names with
    | [] => "."
    | _ :: _ => String.concat "/" names
    end.
Proof.
  intros Hcwd Hstart Hnames.
  destruct (abspath_below _ _ Hcwd Hstart) as (y & Hy & Ey & Eyd).
  destruct (normpath_below _ Hy) as (k & words & Hk & Hwords & En & End').
  destruct (End' names Hnames) as (k' & Hk' & En').
  assert (Hall : Forall kept_word (words ++ names)).
  { apply Forall_app. split; [exact Hwords|].
    eapply Forall_impl; [|exact Hnames].
    intros n Hn. apply proper_name_inv in Hn. unfold kept_word. tauto. }
  unfold posixpath.relpath_of.
  rewrite Ey, Eyd, En, En', !components_slashes.
  rewrite (components_concat _ Hwords), (components_concat _ Hall).
  rewrite commonprefix_len_app, Nat.sub_diag, skipn_app, Nat.sub_diag.
  rewrite skipn_all. cbn [repeat skipn app].
  destruct names as [|a p]; [reflexivity|].
  apply Forall_cons_iff in Hnames as [Ha Hp].
  apply proper_name_inv in Ha as (Hne & _ & _ & Ha).
  rewrite concat_cons. apply (join_proper _ Hp a "" Hne Ha).
Qed.

Lemma split_any_not_nil (sep : ascii) (s : string) : Str.split sep s <> [].
Proof.
  destruct s as [|c s]; simpl; [discriminate|].
  destruct (Ascii.eqb c sep); [discriminate|].
  destruct (Str.split sep s); discriminate.
Qed.

Lemma concat_head (c : ascii) (word : string) (words : list string) :
  String.concat "/" (String c word :: words)
  = String c (String.concat "/" (word :: words)).
Proof. destruct words; reflexivity. Qed.

(** Replacing every backslash by a slash, as line 78 does, gives the path
    with forward slashes for separators. *)
Lemma replace_forward_slashes (s : string) :
  Str.replace "\"%char "/"%char s = forward_slashes s.
Proof.
  unfold forward_slashes. induction s as [|c s IH]; [reflexivity|].
  cbn [Str.replace Str.split]. rewrite IH.
  pose proof (split_any_not_nil "\"%char s) as Hne.
  destruct (Str.split "\"%char s) as [|word words]; [contradiction|].
  destruct (Ascii.eqb c "\"%char).
  - reflexivity.
  - now rewrite concat_head.
Qed.

Lemma contains_append (c : ascii) (a b : string) :
  contains c (a ++ b) = contains c a || contains c b.
Proof.
  induction a as [|x a IH]; [reflexivity|]. simpl. now rewrite IH, orb_assoc.
Qed.

Lemma replace_plain (s : string) :
  contains "\"%char s = false -> Str.replace "\"%char "/"%char s = s.
Proof.
  induction s as [|c s IH]; [reflexivity|]. cbn [contains Str.replace]. intro H.
  apply orb_false_elim in H as [Hc Hs]. now rewrite Hc, IH.
Qed.

Lemma replace_empty (s : string) : Str.replace "\"%char "/"%char s = "" -> s = "".
Proof. destruct s; [reflexivity | discriminate]. Qed.

Lemma descend_no_backslash (p : list string) :
  Forall (fun n => contains "\"%char n = false) p ->
  contains "\"%char (descend p) = false.
Proof.
  induction 1 as [|n p Hn Hp IH]; [reflexivity|].
  cbn [descend fold_right]. fold (descend p).
  change ("/" ++ n ++ descend p) with (String "/"%char (n ++ descend p)).
  cbn [contains]. now rewrite contains_append, Hn, IH.
Qed.

(** On names without backslash the label is the slash and the relative
    path as it is. *)
Lemma label_at_plain (a : string) (p : list string) :
  Forall (fun n => contains "\"%char n = false) (a :: p) ->
  label_at (a :: p) = "/" ++ String.concat "/" (a :: p).
Proof.
  intro H. unfold label_at. rewrite <- replace_forward_slashes, replace_plain;
    [reflexivity|].
  rewrite concat_cons, contains_append.
  apply Forall_cons_iff in H as [Ha Hp]. now rewrite Ha, descend_no_backslash.
Qed.

Lemma replace_not_dot (s : string) :
  s <> "." -> Str.replace "\"%char "/"%char s <> ".".
Proof.
  destruct s as [|c [|d s]]; simpl; intros H E; try discriminate.
  injection E as E. destruct (Ascii.eqb c "\"%char); [discriminate|].
  now subst c.
Qed.

Lemma concat_not_dot (a : string) (p : list string) :
  proper_name a = true -> String.concat "/" (a :: p) <> ".".
Proof.
  intros Ha E. apply proper_name_inv in Ha as (Hne & Hdot & _).
  rewrite concat_cons in E. destruct a as [|c a]; [contradiction|].
  simpl in E. injection E as Ec E.
  pose proof (append_empty _ _ E). subst a c. contradiction.
Qed.

(** Below the start path the script's label is the structural one. *)
Lemma folder_label_below (cwd start : string) (names : list string) :
  posixpath.isabs cwd = true -> start <> "" ->
  Forall (fun n => proper_name n = true) names ->
  folder_label cwd start (start ++ descend names) = label_at names.
Proof.
  intros Hcwd Hstart Hnames. unfold folder_label.
  rewrite relpath_below by assumption.
  destruct names as [|a p]; [reflexivity|].
  unfold label_of, label_at. rewrite <- replace_forward_slashes.
  apply Forall_cons_iff in Hnames as [Ha _].
  pose proof (replace_not_dot _ (concat_not_dot a p Ha)) as Hd.
  apply String.eqb_neq in Hd. now rewrite Hd.
Qed.

(* ================================================================= *)
(** ** Induction on trees *)

Lemma tree_induction (P : tree -> Prop) :
  (forall e, P (Unreadable e)) ->
  (forall children,
      Forall (fun c => P (entry_tree c)) children -> P (Folder children)) ->
  forall t, P t.
Proof.
  intros Hu Hf. fix IH 1. intros [e|children]; [apply Hu|].
  apply Hf. induction children as [|c cs IHcs]; constructor.
  - apply IH.
  - exact IHcs.
Qed.

Lemma folders_below_named : forall t names,
  well_named t = true ->
  Forall (fun n => proper_name n = true) names ->
  Forall (fun d => Forall (fun n => proper_name n = true) (fst d))
         (folders_below names t).
Proof.
  induction t as [e|children IH] using tree_induction; intros names Hw Hn.
  - constructor.
  - cbn [folders_below]. apply Forall_app. split; [|repeat constructor; exact Hn].
    cbn [well_named] in Hw. rewrite forallb_forall in Hw.
    rewrite Forall_forall in IH. apply Forall_flat_map, Forall_forall.
    intros c Hc. specialize (Hw c Hc).
    destruct (is_directory (entry_item c)); [|constructor].
    apply andb_prop in Hw as [Hname Hsub].
    apply IH; auto. apply Forall_app. split; [exact Hn | repeat constructor; exact Hname].
Qed.

Lemma folders_below_kinds : forall t names,
  files_and_directories t = true ->
  Forall (fun d => files_and_directories (snd d) = true) (folders_below names t).
Proof.
  induction t as [e|children IH] using tree_induction; intros names Hk.
  - constructor.
  - cbn [folders_below]. apply Forall_app. split; [|repeat constructor; exact Hk].
    cbn [files_and_directories] in Hk. rewrite forallb_forall in Hk.
    rewrite Forall_forall in IH. apply Forall_flat_map, Forall_forall.
    intros c Hc. specialize (Hk c Hc).
    destruct (is_directory (entry_item c)); [|constructor].
    now apply IH.
Qed.

(* ================================================================= *)
(** ** The order of names and [sorted] *)

Lemma ascii_compare_lt_trans (x y z : ascii) :
  Ascii.compare x y = Lt -> Ascii.compare y z = Lt -> Ascii.compare x z = Lt.
Proof.
  unfold Ascii.compare. rewrite !N.compare_lt_iff. lia.
Qed.

Lemma leb_trans : forall a b c : string,
  (a <=? b)%string = true -> (b <=? c)%string = true -> (a <=? c)%string = true.
Proof.
  unfold String.leb.
  induction a as [|x a IH]; intros [|y b] [|z c]; simpl; try (intros; reflexivity || discriminate).
  destruct (Ascii.compare x y) eqn:Exy; try discriminate;
    destruct (Ascii.compare y z) eqn:Eyz; try discriminate; intros Hab Hbc.
  - apply Ascii.compare_eq_iff in Exy, Eyz. subst y z.
    replace (Ascii.compare x x) with Eq
      by (symmetry; unfold Ascii.compare; apply N.compare_refl).
    now apply IH with b.
  - apply Ascii.compare_eq_iff in Exy. subst y. now rewrite Eyz.
  - apply Ascii.compare_eq_iff in Eyz. subst z. now rewrite Exy.
  - now rewrite (ascii_compare_lt_trans x y z Exy Eyz).
Qed.

Lemma leb_refl (a : string) : (a <=? a)%string = true.
Proof. destruct (String.leb_total a a); assumption. Qed.

Lemma insert_sorted_perm (x : string) (l : list string) :
  Permutation (x :: l) (insert_sorted x l).
Proof.
  induction l as [|y l IH]; simpl; [reflexivity|].
  destruct (x <=? y)%string; [reflexivity|].
  rewrite perm_swap. now constructor.
Qed.

Lemma sorted_perm (l : list string) : Permutation l (sorted l).
Proof.
  induction l as [|x l IH]; simpl; [reflexivity|].
  rewrite <- insert_sorted_perm. now constructor.
Qed.

(** In a list in ascending order the last name is the greatest. *)
Lemma last_insert_sorted (x : string) : forall l,
  (forall n, In n l -> (n <=? last l "")%string = true) ->
  forall n, In n (insert_sorted x l) ->
            (n <=? last (insert_sorted x l) "")%string = true.
Proof.
  induction l as [|y l IH]; intros Hl n Hn.
  - simpl in *. destruct Hn as [<-|[]]. apply leb_refl.
  - cbn [insert_sorted] in *. destruct (x <=? y)%string eqn:Exy.
    + change (last (x :: y :: l) "") with (last (y :: l) "").
      destruct Hn as [<-|Hn]; [|now apply Hl].
      apply leb_trans with y; [exact Exy | apply Hl; now left].
    + destruct l as [|z l].
      * simpl in *. destruct Hn as [<-|[<-|[]]]; [|apply leb_refl].
        destruct (String.leb_total y x); congruence.
      * assert (Hl' : forall m, In m (z :: l) -> (m <=? last (z :: l) "")%string = true).
        { intros m Hm. apply Hl. now right. }
        specialize (IH Hl').
        assert (E : last (y :: insert_sorted x (z :: l)) ""
                    = last (insert_sorted x (z :: l)) "").
        { cbn [insert_sorted]. destruct (x <=? z)%string; reflexivity. }
        rewrite E. destruct Hn as [<-|Hn]; [|now apply IH].
        apply leb_trans with (last (z :: l) "").
        -- apply (Hl y). now left.
        -- apply IH. apply (Permutation_in _ (insert_sorted_perm x (z :: l))).
           right. destruct (@exists_last _ (z :: l)) as (l0 & m & E0); [discriminate|].
           rewrite E0, last_last. apply in_or_app. right. now left.
Qed.

Lemma last_sorted_greatest : forall l n,
  In n (sorted l) -> (n <=? last (sorted l) "")%string = true.
Proof.
  induction l as [|x l IH]; intros n Hn; [destruct Hn|].
  cbn [sorted] in *. now apply last_insert_sorted.
Qed.

Lemma last_in (l : list string) : l <> [] -> In (last l "") l.
Proof.
  intro H. destruct (@exists_last _ l H) as (l0 & m & E).
  rewrite E, last_last. apply in_or_app. right. now left.
Qed.

(** [sorted(valid)[-1]] is a greatest element of [valid]. *)
Lemma latest_of_greatest (valid : list string) :
  valid <> [] ->
  In (latest_of valid) valid
  /\ forall n, In n valid -> (n <=? latest_of valid)%string = true.
Proof.
  intro H. unfold latest_of. split.
  - apply (Permutation_in _ (Permutation_sym (sorted_perm valid))).
    apply last_in. intro E. apply H.
    apply Permutation_nil. rewrite <- E. apply Permutation_sym, sorted_perm.
  - intros n Hn. apply last_sorted_greatest.
    now apply (Permutation_in _ (sorted_perm valid)).
Qed.

(* ================================================================= *)
(** ** The partition selector *)

Section Selector.

Variable client_list : string -> attempt listing.

Lemma has_merge_done_iff (path : string) :
  has_merge_done client_list path = true
  <-> exists control marker,
        client_list (path ++ "/control") = Returned control
        /\ In ("merge.done", marker) control.
Proof.
  unfold has_merge_done. destruct (client_list (path ++ "/control")) as [control|e].
  - rewrite existsb_exists. split.
    + intros ([name marker] & Hin & Hname). apply String.eqb_eq in Hname.
      simpl in Hname. subst name. now exists control, marker.
    + intros (control' & marker & E & Hin). injection E as <-.
      exists ("merge.done", marker). split; [exact Hin | reflexivity].
  - split; [discriminate|]. intros (control & marker & E & _). discriminate.
Qed.

Lemma valid_folders_iff (root_path : string) (statuses : listing) (name : string) :
  In name (valid_folders client_list root_path statuses)
  <-> eligible client_list root_path statuses name.
Proof.
  unfold eligible. induction statuses as [|[n item] rest IH].
  - simpl. split; [intros [] | intros (? & ? & ? & [] & _)].
  - cbn [valid_folders]. unfold is_directory.
    destruct (item_type item =? "DIRECTORY")%string eqn:Hd.
    + apply String.eqb_eq in Hd.
      destruct (has_merge_done client_list (root_path ++ "/" ++ n)) eqn:Hm.
      * split.
        -- intros [<-|Hin].
           ++ apply has_merge_done_iff in Hm as (control & marker & E & Hin).
              exists item, control, marker. rewrite append_assoc in E.
              repeat split; auto. now left.
           ++ apply IH in Hin as (i & c & m & Hin & H).
              exists i, c, m. split; [now right | exact H].
        -- intros (i & c & m & [E|Hin] & H).
           ++ injection E as <- <-. now left.
           ++ right. apply IH. now exists i, c, m.
      * rewrite IH. split.
        -- intros (i & c & m & Hin & H). exists i, c, m. split; [now right | exact H].
        -- intros (i & c & m & [E|Hin] & Ht & El & Hmark).
           ++ injection E as <- <-.
              assert (has_merge_done client_list (root_path ++ "/" ++ n) = true).
              { apply has_merge_done_iff. exists c, m.
                rewrite append_assoc. auto. }
              congruence.
           ++ now exists i, c, m.
    + rewrite IH. split.
      * intros (i & c & m & Hin & H). exists i, c, m. split; [now right | exact H].
      * intros (i & c & m & [E|Hin] & Ht & H).
        -- injection E as <- <-. apply String.eqb_neq in Hd. contradiction.
        -- now exists i, c, m.
Qed.

End Selector.

(* ================================================================= *)
(** ** The run *)

Lemma height_without (before after : list (string * FileStatus * tree))
    (c : string * FileStatus * tree) :
  (height (Folder (before ++ after)) <= height (Folder (before ++ c :: after)))%nat.
Proof.
  cbn [height]. apply le_n_S.
  rewrite !fold_right_app.
  set (f := fun (c : string * FileStatus * tree) h =>
              if is_directory (entry_item c)
              then Nat.max (height (entry_tree c)) h else h).
  assert (Hmono : forall l x y, (x <= y)%nat -> (fold_right f x l <= fold_right f y l)%nat).
  { induction l as [|d l IHl]; intros x y Hxy; simpl; [exact Hxy|].
    specialize (IHl x y Hxy). unfold f at 1 3.
    destruct (is_directory (entry_item d)); lia. }
  apply Hmono. cbn [fold_right]. unfold f at 2.
  destruct (is_directory (entry_item c)); lia.
Qed.

Lemma start_given (root_path latest : string) :
  root_path ++ "/" ++ latest ++ "/barrels/current" <> "".
Proof. destruct root_path; discriminate. Qed.

Lemma full_path_given (path name : string) : path ++ "/" ++ name <> "".
Proof. destruct path; discriminate. Qed.

Section Run.

Variable client_list : string -> attempt listing.
Variable push_to_gateway : push_request -> attempt unit.
Variables PushGW_url Service : option string.
Variable cwd : string.

Local Abbreviation run :=
  (process_latest_valid_folder client_list push_to_gateway PushGW_url Service cwd).

Lemma run_unreachable (fuel : nat) (root_path e : string) (w : world) :
  client_list root_path = Threw e ->
  run fuel root_path w
  = Done (tt, logging ERROR
                ("The path could not be reached " ++ root_path ++ ": " ++ e) w).
Proof. intro H. unfold process_latest_valid_folder. now rewrite H. Qed.

Lemma run_skipped (fuel : nat) (root_path : string) (statuses : listing) (w : world) :
  client_list root_path = Returned statuses ->
  valid_folders client_list root_path statuses = [] ->
  run fuel root_path w
  = Done (tt, logging INFO "❗ No folders with merge.done found." (new_registry w)).
Proof. intros H E. unfold process_latest_valid_folder. now rewrite H, E. Qed.

Lemma run_walked (fuel : nat) (root_path : string) (statuses : listing)
    (t : tree) (w : world) :
  client_list root_path = Returned statuses ->
  valid_folders client_list root_path statuses <> [] ->
  let folder_path :=
    root_path ++ "/" ++ latest_of (valid_folders client_list root_path statuses)
      ++ "/barrels/current" in
  presents client_list folder_path t ->
  (height t <= fuel)%nat ->
  exists w',
    run fuel root_path w = Done (tt, w')
    /\ file_size_metric w'
       = map (reading_at cwd folder_path folder_path) (folders_below [] t)
    /\ pushed w'
       = (pushed w ++ [mkPush PushGW_url JOB_NAME [("instance", Service)]
                              (collect (file_size_metric w'))])%list.
Proof.
  intros Hl Hv folder_path Hp Hh.
  unfold process_latest_valid_folder. rewrite Hl.
  destruct (valid_folders client_list root_path statuses) as [|v vs] eqn:Ev;
    [contradiction|].
  fold folder_path.
  set (w0 := logging INFO _ (new_registry w)).
  destruct (walk_spec client_list cwd folder_path folder_path
              (start_given root_path (latest_of (v :: vs))) fuel [] t w0)
    as (w1 & E1 & M1 & P1); [now rewrite append_nil_r | exact Hh |].
  cbn [descend fold_right] in E1. rewrite append_nil_r in E1. rewrite E1.
  unfold push_of.
  destruct (push_to_gateway _); eexists;
    (split; [reflexivity|]);
    cbn [file_size_metric pushed logging record_push];
    rewrite M1, P1; split; reflexivity.
Qed.

End Run.

(* ================================================================= *)
(** ** Checking the fake file systems *)

Lemma hdfs_three_reordering : same_up_to_order hdfs_three hdfs_three_reordered.
Proof.
  intro path. unfold hdfs_three, hdfs_three_reordered. cbn [fake_client].
  repeat match goal with
         | |- context [if (?p =? path)%string then _ else _] =>
             destruct (p =? path)%string
         end;
    try exact I; try reflexivity;
    try (apply perm_swap);
    try (apply Permutation_sym, Permutation_cons_append).
Qed.

(* ================================================================= *)
(** ** The properties of the specification *)

(** C1. For every directory tree of files and directories, a walk that is
    given enough fuel returns the bytes of the FILE entries of the whole
    subtree, and the reading it records for every successfully listed
    directory, at any depth, is the sum of the byte lengths of all FILE
    entries of that directory's entire subtree; directories without
    entries are no exception. *)
Theorem C1_reading_is_subtree_sum :
  forall (client_list : string -> attempt listing) (cwd base_path path : string)
         (fuel : nat) (t : tree) (w : world),
    path <> "" ->
    presents client_list path t ->
    (height t <= fuel)%nat ->
    files_and_directories t = true ->
    exists w',
      list_dirs_recursive client_list cwd fuel path base_path w
        = Done (subtree_bytes t, w')
      /\ file_size_metric w'
         = (file_size_metric w
              ++ map (fun d => (folder_label cwd base_path (path ++ descend (fst d)),
                                subtree_bytes (snd d)))
                     (folders_below [] t))%list.
Proof.
  intros client_list cwd base_path path fuel t w Hpath Hp Hh Hk.
  destruct (walk_spec client_list cwd base_path path Hpath fuel [] t w)
    as (w' & E & M & _); [now rewrite append_nil_r | exact Hh |].
  cbn [descend fold_right] in E. rewrite append_nil_r in E.
  exists w'. unfold subtree_bytes. rewrite (files_below_leaves t Hk).
  split; [exact E|]. rewrite M. f_equal.
  apply map_ext_in. intros d Hd. unfold reading_at. f_equal.
  pose proof (folders_below_kinds t [] Hk) as Hall.
  rewrite Forall_forall in Hall. now rewrite (files_below_leaves _ (Hall d Hd)).
Qed.

Lemma C1_witness :
  exists w',
    list_dirs_recursive hdfs_three home 3 current current empty_world
      = Done (subtree_bytes tree_three, w')
    /\ file_size_metric w'
       = (file_size_metric empty_world
            ++ map (fun d => (folder_label home current (current ++ descend (fst d)),
                              subtree_bytes (snd d)))
                   (folders_below [] tree_three))%list.
Proof.
  apply C1_reading_is_subtree_sum.
  - discriminate.
  - show_presents.
  - simpl. lia.
  - reflexivity.
Defined.

(** C2 as the specification has it fails: with [x] unreadable below
    [barrels/current], the walk of [x] returns 0 and records nothing, and
    the walk of [barrels/current] ends with the readings of [e] and of the
    start path only: there is no reading labelled [/x]. *)
Lemma C2_no_reading_for_failed_listing :
  hdfs_fault (current ++ "/x") = Threw ("File " ++ current ++ "/x does not exist.")
  /\ (exists w',
        list_dirs_recursive hdfs_fault home 2 (current ++ "/x") current empty_world
          = Done (0, w')
        /\ file_size_metric w' = [])
  /\ (exists w',
        list_dirs_recursive hdfs_fault home 2 current current empty_world
          = Done (7, w')
        /\ file_size_metric w' = [("/e", 0); ("/", 7)]
        /\ ~ In "/x" (map fst (file_size_metric w'))).
Proof.
  split; [reflexivity|]. split.
  - eexists. split; [vm_compute; reflexivity | reflexivity].
  - eexists. split; [vm_compute; reflexivity|]. split; [reflexivity|].
    simpl. intros [H|[H|[]]]; discriminate.
Qed.

(** C2, amended. A directory whose listing fails gets no reading: its walk
    logs a warning, leaves the gauge as it was and returns 0.  The walk of
    its parent goes on, and returns the total and records the readings it
    would return and record if the parent's listing did not have that
    entry. *)
Theorem C2_failed_listing_counts_zero :
  forall (client_list client_without : string -> attempt listing)
         (cwd base_path start : string) (fuel : nat)
         (before after : list (string * FileStatus * tree))
         (name : string) (item : FileStatus) (e : string) (w : world),
    start <> "" ->
    is_directory item = true ->
    presents client_list start (Folder (before ++ (name, item, Unreadable e) :: after)) ->
    presents client_without start (Folder (before ++ after)) ->
    (height (Folder (before ++ (name, item, Unreadable e) :: after)) <= fuel)%nat ->
    (forall w0,
        list_dirs_recursive client_list cwd fuel (start ++ "/" ++ name) base_path w0
        = Done (0, logging WARNING
                     ("There was an error while reading the folder "
                        ++ (start ++ "/" ++ name) ++ ": " ++ e) w0))
    /\ exists total w1 w2,
         list_dirs_recursive client_list cwd fuel start base_path w = Done (total, w1)
         /\ list_dirs_recursive client_without cwd fuel start base_path w
            = Done (total, w2)
         /\ file_size_metric w1 = file_size_metric w2.
Proof.
  intros client_list client_without cwd base_path start fuel before after
         name item e w Hstart Hd Hp Hp' Hh.
  split.
  - intro w0. inversion Hp as [|path children Hl Hsub]; subst.
    rewrite Forall_forall in Hsub.
    specialize (Hsub (name, item, Unreadable e)
                     (in_elt (name, item, Unreadable e) before after) Hd).
    cbn [entry_name entry_tree fst snd] in Hsub.
    inversion Hsub as [path e' Hfail|]; subst.
    destruct fuel as [|fuel]; [simpl in Hh; lia|].
    cbn [list_dirs_recursive]. now rewrite Hfail.
  - destruct (walk_spec client_list cwd base_path start Hstart fuel []
                (Folder (before ++ (name, item, Unreadable e) :: after)) w)
      as (w1 & E1 & M1 & _); [rewrite append_nil_r; exact Hp | exact Hh |].
    destruct (walk_spec client_without cwd base_path start Hstart fuel []
                (Folder (before ++ after)) w)
      as (w2 & E2 & M2 & _);
      [rewrite append_nil_r; exact Hp'
      | pose proof (height_without before after (name, item, Unreadable e)); lia |].
    cbn [descend fold_right] in E1, E2. rewrite append_nil_r in E1, E2.
    assert (El : leaves_below (Folder (before ++ (name, item, Unreadable e) :: after))
                 = leaves_below (Folder (before ++ after))).
    { cbn [leaves_below]. rewrite !flat_map_app. cbn [flat_map entry_item fst snd].
      rewrite Hd. reflexivity. }
    exists (total_length (leaves_below (Folder (before ++ after)))), w1, w2.
    rewrite <- El at 1. split; [exact E1|]. split; [exact E2|].
    rewrite M1, M2. f_equal. cbn [folders_below]. rewrite !map_app. f_equal.
    + rewrite !flat_map_app. cbn [flat_map entry_item fst snd]. rewrite Hd.
      reflexivity.
    + cbn [map]. unfold reading_at. cbn [fst snd]. now rewrite El.
Qed.

Lemma C2_witness :
  (forall w0,
      list_dirs_recursive hdfs_fault home 2 (current ++ "/" ++ "x") current w0
      = Done (0, logging WARNING
                   ("There was an error while reading the folder "
                      ++ (current ++ "/" ++ "x") ++ ": "
                      ++ ("File " ++ current ++ "/x does not exist.")) w0))
  /\ exists total w1 w2,
       list_dirs_recursive hdfs_fault home 2 current current empty_world
         = Done (total, w1)
       /\ list_dirs_recursive hdfs_sound home 2 current current empty_world
          = Done (total, w2)
       /\ file_size_metric w1 = file_size_metric w2.
Proof.
  apply (C2_failed_listing_counts_zero hdfs_fault hdfs_sound home current current 2
           [("e", DIRECTORY, Folder [])] [("f", FILE 7, Unreadable "")]
           "x" DIRECTORY ("File " ++ current ++ "/x does not exist.") empty_world).
  - discriminate.
  - reflexivity.
  - show_presents.
  - show_presents.
  - simpl. lia.
Defined.

(** C3. Among the entries of the root listing, the selector's choice
    [sorted(valid_folders)[-1]] is a DIRECTORY entry whose [control]
    subpath lists and has an entry named [merge.done], and no such entry
    has a greater name; an entry whose [control] does not list, or lists
    without [merge.done], is never the choice, whatever its name. *)
Theorem C3_latest_is_greatest_eligible :
  forall (client_list : string -> attempt listing) (root_path : string)
         (statuses : listing) (candidate : string),
    eligible client_list root_path statuses candidate ->
    let latest_folder := latest_of (valid_folders client_list root_path statuses) in
    eligible client_list root_path statuses latest_folder
    /\ (candidate <=? latest_folder)%string = true.
Proof.
  intros client_list root_path statuses candidate Hc latest_folder.
  apply valid_folders_iff in Hc.
  destruct (latest_of_greatest (valid_folders client_list root_path statuses))
    as [Hin Hmax].
  - intro E. rewrite E in Hc. destruct Hc.
  - split; [now apply valid_folders_iff | now apply Hmax].
Qed.

Lemma C3_witness :
  let statuses := [("2024-01-01", DIRECTORY); ("2024-02-01", DIRECTORY);
                   ("2024-03-01", DIRECTORY)] in
  latest_of (valid_folders hdfs_three complete statuses) = "2024-02-01"
  /\ eligible hdfs_three complete statuses
       (latest_of (valid_folders hdfs_three complete statuses))
  /\ ("2024-02-01" <=? latest_of (valid_folders hdfs_three complete statuses))%string
     = true.
Proof.
  split; [reflexivity|].
  apply (C3_latest_is_greatest_eligible hdfs_three complete
           [("2024-01-01", DIRECTORY); ("2024-02-01", DIRECTORY);
            ("2024-03-01", DIRECTORY)] "2024-02-01").
  exists DIRECTORY, [("merge.done", FILE 0)], (FILE 0).
  repeat split; simpl; auto.
Defined.

(** C4 as the specification has it fails: a directory whose listing
    throws is visited and gets no label.  With [barrels/current] itself
    unreadable the walk from it records nothing, so the start path is not
    labelled ["/"]; with [x] unreadable below it the labels are those of
    [e] and of the start path, and there is none for [x]. *)
Lemma C4_unreadable_directory_gets_no_label :
  (exists w',
      list_dirs_recursive hdfs_no_barrels home 1 current current empty_world
        = Done (0, w')
      /\ map fst (file_size_metric w') = [])
  /\ (exists w',
        list_dirs_recursive hdfs_fault home 2 current current empty_world
          = Done (7, w')
        /\ map fst (file_size_metric w') = ["/e"; "/"]).
Proof.
  split; eexists; (split; [vm_compute; reflexivity | reflexivity]).
Qed.

(** C4, amended. A walk whose base path is its start path labels the
    directories it can list, and only them: the start path ["/"], which is
    the last label it records, and every other directory ["/"] followed by
    the path [n1/.../nk] that leads to it from the start path, with forward
    slashes for separators; where no name has a backslash that is the slash
    and the relative path as it is.  A start path whose listing throws gets
    no label. *)
Theorem C4_labels_are_relative_paths :
  forall (client_list : string -> attempt listing) (cwd start : string)
         (fuel : nat) (t : tree) (w : world),
    posixpath.isabs cwd = true ->
    start <> "" ->
    presents client_list start t ->
    (height t <= fuel)%nat ->
    well_named t = true ->
    exists total w',
      list_dirs_recursive client_list cwd fuel start start w = Done (total, w')
      /\ map fst (file_size_metric w')
         = (map fst (file_size_metric w)
              ++ map label_at (map fst (folders_below [] t)))%list
      /\ (forall children,
            t = Folder children ->
            last (map fst (file_size_metric w')) "" = "/")
      /\ (forall e, t = Unreadable e -> file_size_metric w' = file_size_metric w)
      /\ (forall a p,
            In (a :: p) (map fst (folders_below [] t)) ->
            Forall (fun n => contains "\"%char n = false) (a :: p) ->
            label_at (a :: p) = "/" ++ String.concat "/" (a :: p)).
Proof.
  intros client_list cwd start fuel t w Hcwd Hstart Hp Hh Hn.
  destruct (walk_spec client_list cwd start start Hstart fuel [] t w)
    as (w' & E & M & _); [now rewrite append_nil_r | exact Hh |].
  cbn [descend fold_right] in E. rewrite append_nil_r in E.
  assert (Hl : map fst (file_size_metric w')
               = (map fst (file_size_metric w)
                    ++ map label_at (map fst (folders_below [] t)))%list).
  { rewrite M, map_app, !map_map. f_equal.
    apply map_ext_in. intros d Hd. cbn [reading_at fst].
    pose proof (folders_below_named t [] Hn (Forall_nil _)) as Hall.
    rewrite Forall_forall in Hall.
    now apply folder_label_below; [| |apply Hall]. }
  exists (total_length (leaves_below t)), w'. split; [exact E|].
  split; [exact Hl|]. split; [|split].
  - intros children ->. rewrite Hl. cbn [folders_below].
    rewrite !map_app, app_assoc. cbn [map fst label_at]. apply last_last.
  - intros e ->. rewrite M. cbn [folders_below map]. apply app_nil_r.
  - intros a p _ Hplain. now apply label_at_plain.
Qed.

Lemma C4_witness :
  map label_at (map fst (folders_below [] tree_backslash)) = ["/x/y"; "/"]
  /\ exists total w',
       list_dirs_recursive hdfs_backslash home 2 current current empty_world
         = Done (total, w')
       /\ map fst (file_size_metric w')
          = (map fst (file_size_metric empty_world)
               ++ map label_at (map fst (folders_below [] tree_backslash)))%list
       /\ (forall children,
             tree_backslash = Folder children ->
             last (map fst (file_size_metric w')) "" = "/")
       /\ (forall e,
             tree_backslash = Unreadable e ->
             file_size_metric w' = file_size_metric empty_world)
       /\ (forall a p,
             In (a :: p) (map fst (folders_below [] tree_backslash)) ->
             Forall (fun n => contains "\"%char n = false) (a :: p) ->
             label_at (a :: p) = "/" ++ String.concat "/" (a :: p)).
Proof.
  split; [reflexivity|].
  apply C4_labels_are_relative_paths.
  - reflexivity.
  - discriminate.
  - show_presents.
  - simpl. lia.
  - reflexivity.
Defined.

(** C5. When [barrels/current] of the selected partition holds [a/file1]
    of 100 bytes, [a/b/file2] of 50 bytes and [file3] of 10 bytes, the run
    records exactly the three readings [/a/b] = 50, [/a] = 150 and
    [/] = 160, and pushes them: [file3] adds to the total of the start path
    and has no reading of its own. *)
Theorem C5_three_readings :
  forall (client_list : string -> attempt listing)
         (push_to_gateway : push_request -> attempt unit)
         (PushGW_url Service : option string) (cwd : string)
         (fuel : nat) (root_path : string) (statuses : listing)
         (candidate : string) (w : world),
    posixpath.isabs cwd = true ->
    client_list root_path = Returned statuses ->
    eligible client_list root_path statuses candidate ->
    presents client_list
      (root_path ++ "/" ++ latest_of (valid_folders client_list root_path statuses)
         ++ "/barrels/current")
      tree_three ->
    (3 <= fuel)%nat ->
    exists w',
      process_latest_valid_folder client_list push_to_gateway PushGW_url Service cwd
        fuel root_path w = Done (tt, w')
      /\ file_size_metric w' = [("/a/b", 50); ("/a", 150); ("/", 160)]
      /\ pushed w'
         = (pushed w
              ++ [mkPush PushGW_url JOB_NAME [("instance", Service)]
                         [("/a/b", 50); ("/a", 150); ("/", 160)]])%list.
Proof.
  intros client_list push_to_gateway PushGW_url Service cwd fuel root_path
         statuses candidate w Hcwd Hl Hc Hp Hfuel.
  assert (Hv : valid_folders client_list root_path statuses <> []).
  { apply valid_folders_iff in Hc. intro E. rewrite E in Hc. destruct Hc. }
  destruct (run_walked client_list push_to_gateway PushGW_url Service cwd
              fuel root_path statuses tree_three w Hl Hv Hp)
    as (w' & E & M & P); [simpl; lia|].
  assert (Hm : file_size_metric w' = [("/a/b", 50); ("/a", 150); ("/", 160)]).
  { rewrite M.
    change (folders_below [] tree_three)
      with [ (["a"; "b"], Folder [("file2", FILE 50, Unreadable "")]);
             (["a"], Folder [ ("file1", FILE 100, Unreadable "");
                              ("b", DIRECTORY,
                               Folder [("file2", FILE 50, Unreadable "")]) ]);
             ([], tree_three) ].
    unfold reading_at. cbn [map fst snd].
    rewrite !folder_label_below;
      auto using start_given; repeat constructor. }
  exists w'. split; [exact E|]. split; [exact Hm|].
  rewrite P, Hm. reflexivity.
Qed.

Lemma C5_witness :
  exists w',
    process_latest_valid_folder hdfs_three gateway_up gateway_url service home
      3 complete empty_world = Done (tt, w')
    /\ file_size_metric w' = [("/a/b", 50); ("/a", 150); ("/", 160)]
    /\ pushed w'
       = (pushed empty_world
            ++ [mkPush gateway_url JOB_NAME [("instance", service)]
                       [("/a/b", 50); ("/a", 150); ("/", 160)]])%list.
Proof.
  apply (C5_three_readings hdfs_three gateway_up gateway_url service home 3 complete
           [("2024-01-01", DIRECTORY); ("2024-02-01", DIRECTORY);
            ("2024-03-01", DIRECTORY)] "2024-02-01" empty_world).
  - reflexivity.
  - reflexivity.
  - exists DIRECTORY, [("merge.done", FILE 0)], (FILE 0).
    repeat split; simpl; auto.
  - show_presents.
  - lia.
Defined.

(** C6 as the specification has it fails: the run that pushes, the run that finds
    no merged partition and the run whose root cannot be listed all return
    the same [None]; the last one raises nothing. *)
Lemma C6_one_return_value :
  exists w_pushed w_skipped w_failed,
    process_latest_valid_folder hdfs_three gateway_up gateway_url service home
      3 complete empty_world = Done (tt, w_pushed)
    /\ process_latest_valid_folder hdfs_unmerged gateway_up gateway_url service home
         3 complete empty_world = Done (tt, w_skipped)
    /\ process_latest_valid_folder hdfs_down gateway_up gateway_url service home
         3 complete empty_world = Done (tt, w_failed)
    /\ List.length (pushed w_pushed) = 1%nat
    /\ pushed w_skipped = []
    /\ pushed w_failed = [].
Proof.
  do 3 eexists.
  split; [vm_compute; reflexivity|].
  split; [vm_compute; reflexivity|].
  split; [vm_compute; reflexivity|].
  repeat split.
Qed.

(** C6, amended. In each of its three ends the run returns [None]; the
    ends differ in what it does.  When the root cannot
    be listed it logs an error and pushes nothing; when no entry of the
    root is an eligible partition it logs that and pushes nothing; when
    there is one and the walk of the latest one is over, it attempts
    exactly one push, of the samples of the gauge. *)
Theorem C6_three_ends :
  forall (client_list : string -> attempt listing)
         (push_to_gateway : push_request -> attempt unit)
         (PushGW_url Service : option string) (cwd : string)
         (fuel : nat) (root_path : string) (w : world),
    let run := process_latest_valid_folder client_list push_to_gateway
                 PushGW_url Service cwd fuel root_path w in
    (forall e,
        client_list root_path = Threw e ->
        run = Done (tt, logging ERROR
                          ("The path could not be reached " ++ root_path ++ ": " ++ e) w)
        /\ pushed (logging ERROR
                     ("The path could not be reached " ++ root_path ++ ": " ++ e) w)
           = pushed w)
    /\ (forall statuses,
          client_list root_path = Returned statuses ->
          (forall name, ~ eligible client_list root_path statuses name) ->
          run = Done (tt, logging INFO "❗ No folders with merge.done found."
                            (new_registry w))
          /\ pushed (logging INFO "❗ No folders with merge.done found."
                       (new_registry w)) = pushed w)
    /\ (forall statuses candidate t,
          client_list root_path = Returned statuses ->
          eligible client_list root_path statuses candidate ->
          presents client_list
            (root_path ++ "/"
               ++ latest_of (valid_folders client_list root_path statuses)
               ++ "/barrels/current") t ->
          (height t <= fuel)%nat ->
          exists w',
            run = Done (tt, w')
            /\ pushed w'
               = (pushed w
                    ++ [mkPush PushGW_url JOB_NAME [("instance", Service)]
                               (collect (file_size_metric w'))])%list).
Proof.
  intros client_list push_to_gateway PushGW_url Service cwd fuel root_path w run.
  split; [|split].
  - intros e He. split; [|reflexivity]. now apply run_unreachable.
  - intros statuses Hl Hnone. split; [|reflexivity].
    apply run_skipped with statuses; [exact Hl|].
    destruct (valid_folders client_list root_path statuses) as [|v vs] eqn:Ev;
      [reflexivity|].
    exfalso. apply (Hnone v). apply valid_folders_iff. rewrite Ev. now left.
  - intros statuses candidate t Hl Hc Hp Hh.
    assert (Hv : valid_folders client_list root_path statuses <> []).
    { apply valid_folders_iff in Hc. intro E. rewrite E in Hc. destruct Hc. }
    destruct (run_walked client_list push_to_gateway PushGW_url Service cwd
                fuel root_path statuses t w Hl Hv Hp Hh) as (w' & E & _ & P).
    now exists w'.
Qed.

Lemma C6_witness :
  (exists w',
      process_latest_valid_folder hdfs_fault gateway_down gateway_url service home
        2 complete empty_world = Done (tt, w')
      /\ pushed w'
         = (pushed empty_world
              ++ [mkPush gateway_url JOB_NAME [("instance", service)]
                         (collect (file_size_metric w'))])%list)
  /\ process_latest_valid_folder hdfs_down gateway_down gateway_url service home
       2 complete empty_world
     = Done (tt, logging ERROR
                   ("The path could not be reached " ++ complete ++ ": "
                      ++ ("File " ++ complete ++ " does not exist.")) empty_world).
Proof.
  split.
  - apply (C6_three_ends hdfs_fault gateway_down gateway_url service home
             2 complete empty_world)
      with (statuses := [("2024-02-01", DIRECTORY)]) (candidate := "2024-02-01")
           (t := tree_fault).
    + reflexivity.
    + exists DIRECTORY, [("merge.done", FILE 0)], (FILE 0).
      repeat split; simpl; auto.
    + show_presents.
    + simpl. lia.
  - apply (C6_three_ends hdfs_down gateway_down gateway_url service home
             2 complete empty_world).
    reflexivity.
Defined.

(** C7. When the [control] subpath of a candidate cannot be listed,
    [has_merge_done] answers [False] and raises nothing: the candidate is
    left out of the valid folders and the selection goes on. *)
Theorem C7_unlistable_control_is_invalid :
  forall (client_list : string -> attempt listing) (path e : string),
    client_list (path ++ "/control") = Threw e ->
    has_merge_done client_list path = false
    /\ forall root_path name statuses,
         path = root_path ++ "/" ++ name ->
         ~ In name (valid_folders client_list root_path statuses).
Proof.
  intros client_list path e H. split.
  - unfold has_merge_done. now rewrite H.
  - intros root_path name statuses -> Hin.
    apply valid_folders_iff in Hin as (i & c & m & _ & _ & E & _).
    rewrite append_assoc in H. cbn [append] in H, E. congruence.
Qed.

Lemma C7_witness :
  has_merge_done hdfs_three (complete ++ "/2024-01-01") = false
  /\ forall root_path name statuses,
       complete ++ "/2024-01-01" = root_path ++ "/" ++ name ->
       ~ In name (valid_folders hdfs_three root_path statuses).
Proof.
  apply (C7_unlistable_control_is_invalid hdfs_three (complete ++ "/2024-01-01")
           ("File " ++ complete ++ "/2024-01-01/control does not exist.")).
  reflexivity.
Defined.

(** C8. When no entry of the root listing is a directory with
    [control/merge.done], the run ends early, whatever the fuel: nothing
    is pushed, the gauge has no reading, and the log says that no folder
    was found. *)
Theorem C8_no_partition_no_push :
  forall (client_list : string -> attempt listing)
         (push_to_gateway : push_request -> attempt unit)
         (PushGW_url Service : option string) (cwd : string)
         (fuel : nat) (root_path : string) (statuses : listing) (w : world),
    client_list root_path = Returned statuses ->
    (forall name, ~ eligible client_list root_path statuses name) ->
    exists w',
      process_latest_valid_folder client_list push_to_gateway PushGW_url Service cwd
        fuel root_path w = Done (tt, w')
      /\ pushed w' = pushed w
      /\ file_size_metric w' = []
      /\ logged w'
         = (logged w ++ [(INFO, "❗ No folders with merge.done found.")])%list.
Proof.
  intros client_list push_to_gateway PushGW_url Service cwd fuel root_path
         statuses w Hl Hnone.
  exists (logging INFO "❗ No folders with merge.done found." (new_registry w)).
  split; [|repeat split].
  apply run_skipped with statuses; [exact Hl|].
  destruct (valid_folders client_list root_path statuses) as [|v vs] eqn:Ev;
    [reflexivity|].
  exfalso. apply (Hnone v). apply valid_folders_iff. rewrite Ev. now left.
Qed.

Lemma C8_witness :
  exists w',
    process_latest_valid_folder hdfs_unmerged gateway_up gateway_url service home
      0 complete empty_world = Done (tt, w')
    /\ pushed w' = pushed empty_world
    /\ file_size_metric w' = []
    /\ logged w'
       = (logged empty_world ++ [(INFO, "❗ No folders with merge.done found.")])%list.
Proof.
  apply (C8_no_partition_no_push hdfs_unmerged gateway_up gateway_url service home
           0 complete
           [("2024-01-01", DIRECTORY); ("2024-03-01", DIRECTORY);
            ("notes.txt", FILE 12)] empty_world).
  - reflexivity.
  - intros name (item & control & marker & Hin & Ht & Hl & Hm).
    simpl in Hin. destruct Hin as [E|[E|[E|[]]]]; injection E as <- <-.
    + discriminate Hl.
    + vm_compute in Hl. injection Hl as <-.
      destruct Hm as [Hm|[]]. discriminate Hm.
    + discriminate Ht.
Defined.

(** C9. Two clients that show the same entries at every path, each
    listing in any order, give the walk the same total and the same
    readings: the readings of one walk are a permutation of those of the
    other. *)
Theorem C9_order_of_children_is_irrelevant :
  forall (c1 c2 : string -> attempt listing) (cwd base_path path : string)
         (fuel : nat) (t : tree) (w : world),
    same_up_to_order c1 c2 ->
    path <> "" ->
    presents c1 path t ->
    (height t <= fuel)%nat ->
    exists total w1 w2,
      list_dirs_recursive c1 cwd fuel path base_path w = Done (total, w1)
      /\ list_dirs_recursive c2 cwd fuel path base_path w = Done (total, w2)
      /\ Permutation (file_size_metric w1) (file_size_metric w2).
Proof.
  intros c1 c2 cwd base_path path fuel t w Hsame Hpath Hp Hh.
  destruct (walk_spec c1 cwd base_path path Hpath fuel [] t w)
    as (w1 & E1 & M1 & _); [now rewrite append_nil_r | exact Hh |].
  destruct (walk_reordered c1 c2 Hsame cwd base_path path Hpath fuel [] t w)
    as (w2 & E2 & M2 & _); [now rewrite append_nil_r | exact Hh |].
  cbn [descend fold_right] in E1, E2. rewrite append_nil_r in E1, E2.
  exists (total_length (leaves_below t)), w1, w2.
  split; [exact E1|]. split; [exact E2|].
  rewrite M1. now apply Permutation_sym.
Qed.

Lemma C9_witness :
  exists total w1 w2,
    list_dirs_recursive hdfs_three home 3 current current empty_world
      = Done (total, w1)
    /\ list_dirs_recursive hdfs_three_reordered home 3 current current empty_world
       = Done (total, w2)
    /\ Permutation (file_size_metric w1) (file_size_metric w2).
Proof.
  apply (C9_order_of_children_is_irrelevant hdfs_three hdfs_three_reordered
           home current current 3 tree_three empty_world).
  - exact hdfs_three_reordering.
  - discriminate.
  - show_presents.
  - simpl. lia.
Defined.

(** C10. Once a partition is selected the push is attempted whatever the
    walk found: the run ends with exactly one more push, of the samples
    of the gauge; when the listing of [barrels/current] itself throws, the
    gauge has no reading and the push is of an empty batch. *)
Theorem C10_push_after_any_walk :
  forall (client_list : string -> attempt listing)
         (push_to_gateway : push_request -> attempt unit)
         (PushGW_url Service : option string) (cwd : string)
         (fuel : nat) (root_path : string) (statuses : listing)
         (candidate : string) (t : tree) (w : world),
    client_list root_path = Returned statuses ->
    eligible client_list root_path statuses candidate ->
    presents client_list
      (root_path ++ "/" ++ latest_of (valid_folders client_list root_path statuses)
         ++ "/barrels/current") t ->
    (height t <= fuel)%nat ->
    exists w',
      process_latest_valid_folder client_list push_to_gateway PushGW_url Service cwd
        fuel root_path w = Done (tt, w')
      /\ pushed w'
         = (pushed w ++ [mkPush PushGW_url JOB_NAME [("instance", Service)]
                                (collect (file_size_metric w'))])%list
      /\ (forall e, t = Unreadable e ->
            file_size_metric w' = []
            /\ pushed w'
               = (pushed w ++ [mkPush PushGW_url JOB_NAME
                                      [("instance", Service)] []])%list).
Proof.
  intros client_list push_to_gateway PushGW_url Service cwd fuel root_path
         statuses candidate t w Hl Hc Hp Hh.
  assert (Hv : valid_folders client_list root_path statuses <> []).
  { apply valid_folders_iff in Hc. intro E. rewrite E in Hc. destruct Hc. }
  destruct (run_walked client_list push_to_gateway PushGW_url Service cwd
              fuel root_path statuses t w Hl Hv Hp Hh) as (w' & E & M & P).
  exists w'. split; [exact E|]. split; [exact P|].
  intros e ->. cbn [folders_below map] in M. rewrite P, M. split; reflexivity.
Qed.

Lemma C10_witness :
  exists w',
    process_latest_valid_folder hdfs_no_barrels gateway_up gateway_url service home
      1 complete empty_world = Done (tt, w')
    /\ pushed w'
       = (pushed empty_world
            ++ [mkPush gateway_url JOB_NAME [("instance", service)]
                       (collect (file_size_metric w'))])%list
    /\ (forall e, Unreadable ("File " ++ current ++ " does not exist.") = Unreadable e ->
          file_size_metric w' = []
          /\ pushed w'
             = (pushed empty_world
                  ++ [mkPush gateway_url JOB_NAME [("instance", service)] []])%list).
Proof.
  apply (C10_push_after_any_walk hdfs_no_barrels gateway_up gateway_url service home
           1 complete [("2024-02-01", DIRECTORY)] "2024-02-01"
           (Unreadable ("File " ++ current ++ " does not exist.")) empty_world).
  - reflexivity.
  - exists DIRECTORY, [("merge.done", FILE 0)], (FILE 0).
    repeat split; simpl; auto.
  - show_presents.
  - simpl. lia.
Defined.

(* ================================================================= *)
(** ** Further properties of the walk *)

(** X1. A walk records as many readings as there are directories it can
    list, whatever the number and the kinds of the other entries. *)
Theorem X1_one_reading_per_listed_directory :
  forall (client_list : string -> attempt listing) (cwd base_path path : string)
         (fuel : nat) (t : tree) (w : world),
    path <> "" ->
    presents client_list path t ->
    (height t <= fuel)%nat ->
    exists total w',
      list_dirs_recursive client_list cwd fuel path base_path w = Done (total, w')
      /\ List.length (file_size_metric w')
         = (List.length (file_size_metric w) + List.length (folders_below [] t))%nat.
Proof.
  intros client_list cwd base_path path fuel t w Hpath Hp Hh.
  destruct (walk_spec client_list cwd base_path path Hpath fuel [] t w)
    as (w' & E & M & _); [now rewrite append_nil_r | exact Hh |].
  cbn [descend fold_right] in E. rewrite append_nil_r in E.
  exists (total_length (leaves_below t)), w'. split; [exact E|].
  now rewrite M, length_app, length_map.
Qed.

Lemma X1_witness :
  exists total w',
    list_dirs_recursive hdfs_fault home 2 current current empty_world
      = Done (total, w')
    /\ List.length (file_size_metric w')
       = (List.length (file_size_metric empty_world)
            + List.length (folders_below [] tree_fault))%nat.
Proof.
  apply X1_one_reading_per_listed_directory.
  - discriminate.
  - show_presents.
  - simpl. lia.
Defined.

(** X2. The reading of a directory that lists is recorded last, after the
    readings of everything below it, and its value is the total the call
    returns. *)
Theorem X2_own_reading_last :
  forall (client_list : string -> attempt listing) (cwd base_path path : string)
         (fuel : nat) (children : list (string * FileStatus * tree)) (w : world),
    path <> "" ->
    presents client_list path (Folder children) ->
    (height (Folder children) <= fuel)%nat ->
    exists total w' below,
      list_dirs_recursive client_list cwd fuel path base_path w = Done (total, w')
      /\ file_size_metric w'
         = (file_size_metric w ++ below
              ++ [(folder_label cwd base_path path, total)])%list
      /\ List.length below
         = List.length
             (flat_map (fun c => if is_directory (entry_item c)
                                 then folders_below [entry_name c] (entry_tree c)
                                 else []) children).
Proof.
  intros client_list cwd base_path path fuel children w Hpath Hp Hh.
  destruct (walk_spec client_list cwd base_path path Hpath fuel [] (Folder children) w)
    as (w' & E & M & _); [now rewrite append_nil_r | exact Hh |].
  cbn [descend fold_right] in E. rewrite append_nil_r in E.
  cbn [folders_below app] in M. rewrite map_app in M.
  eexists _, w', _. split; [exact E|]. split.
  - rewrite M. cbn [map]. unfold reading_at at 2. cbn [fst snd descend fold_right].
    now rewrite append_nil_r.
  - now rewrite length_map.
Qed.

Lemma X2_witness :
  exists total w' below,
    list_dirs_recursive hdfs_three home 3 current current empty_world
      = Done (total, w')
    /\ file_size_metric w'
       = (file_size_metric empty_world ++ below
            ++ [(folder_label home current current, total)])%list
    /\ List.length below
       = List.length
           (flat_map (fun c => if is_directory (entry_item c)
                               then folders_below [entry_name c] (entry_tree c)
                               else [])
              [ ("a", DIRECTORY,
                 Folder [ ("file1", FILE 100, Unreadable "");
                          ("b", DIRECTORY,
                           Folder [("file2", FILE 50, Unreadable "")]) ]);
                ("file3", FILE 10, Unreadable "") ]).
Proof.
  apply X2_own_reading_last.
  - discriminate.
  - show_presents.
  - simpl. lia.
Defined.

Lemma sum_children_done (rec : string -> world -> outcome (Z * world))
    (path : string) :
  forall children : list (string * FileStatus * tree),
  Forall (fun c => is_directory (entry_item c) = true ->
                   forall w, exists r, rec (path ++ "/" ++ entry_name c) w = Done r)
         children ->
  forall total_size w, exists r,
    sum_children rec path (map fst children) total_size w = Done r.
Proof.
  induction children as [|[[name item] sub] cs IH]; intros Hall total_size w.
  - now eexists.
  - apply Forall_cons_iff in Hall as [Hc Hcs]. cbn [map fst sum_children].
    cbn [entry_item entry_name fst snd] in Hc.
    destruct (is_directory item); [|now apply IH].
    destruct (Hc eq_refl w) as ([size w'] & E). rewrite E. now apply IH.
Qed.

(** X4. A walk of the empty path does not return when the listing of the
    empty path succeeds and the tree below it is finite: it ends with the
    [ValueError] that [os.path.relpath] raises on the empty path, which
    nothing in the script catches. *)
Theorem X4_empty_path_raises :
  forall (client_list : string -> attempt listing) (cwd base_path : string)
         (fuel : nat) (children : list (string * FileStatus * tree)) (w : world),
    presents client_list "" (Folder children) ->
    (height (Folder children) <= fuel)%nat ->
    list_dirs_recursive client_list cwd fuel "" base_path w
    = Raised "ValueError: no path specified".
Proof.
  intros client_list cwd base_path fuel children w Hp Hh.
  destruct fuel as [|fuel]; [simpl in Hh; lia|].
  apply height_child in Hh.
  inversion Hp as [|path cs Hl Hsub]; subst.
  cbn [list_dirs_recursive]. rewrite Hl.
  destruct (sum_children_done
              (fun p => list_dirs_recursive client_list cwd fuel p base_path)
              "" children) with (total_size := 0) (w := w) as ([total w1] & E).
  - rewrite Forall_forall in *. intros c Hin Hd w0.
    destruct (walk_spec client_list cwd base_path ("" ++ "/" ++ entry_name c)
                (full_path_given "" (entry_name c)) fuel [] (entry_tree c) w0)
      as (w' & E & _).
    + rewrite append_nil_r. now apply Hsub.
    + now apply Hh.
    + cbn [descend fold_right] in E. rewrite append_nil_r in E.
      eexists. exact E.
  - rewrite E. reflexivity.
Qed.

Lemma X4_witness :
  list_dirs_recursive hdfs_unnamed home 2 "" "" empty_world
  = Raised "ValueError: no path specified".
Proof.
  apply (X4_empty_path_raises hdfs_unnamed home "" 2
           [ ("d", DIRECTORY, Folder [("g", FILE 4, Unreadable "")]);
             ("f", FILE 3, Unreadable "") ]).
  - show_presents.
  - simpl. lia.
Defined.

Lemma total_length_not_negative (items : list FileStatus) :
  Forall (fun item => 0 <= item_length item) items -> 0 <= total_length items.
Proof. induction 1; simpl; lia. Qed.

Lemma leaves_not_negative : forall t,
  lengths_not_negative t = true ->
  Forall (fun item => 0 <= item_length item) (leaves_below t).
Proof.
  induction t as [e|children IH] using tree_induction; intro H; [constructor|].
  cbn [leaves_below lengths_not_negative] in *.
  rewrite forallb_forall in H. rewrite Forall_forall in IH.
  apply Forall_flat_map, Forall_forall. intros c Hc. specialize (H c Hc).
  destruct (is_directory (entry_item c)); [now apply IH|].
  repeat constructor. now apply Z.leb_le.
Qed.

Lemma folders_below_lengths : forall t names,
  lengths_not_negative t = true ->
  Forall (fun d => lengths_not_negative (snd d) = true) (folders_below names t).
Proof.
  induction t as [e|children IH] using tree_induction; intros names H.
  - constructor.
  - cbn [folders_below]. apply Forall_app. split; [|repeat constructor; exact H].
    cbn [lengths_not_negative] in H. rewrite forallb_forall in H.
    rewrite Forall_forall in IH. apply Forall_flat_map, Forall_forall.
    intros c Hc. specialize (H c Hc).
    destruct (is_directory (entry_item c)); [|constructor].
    now apply IH.
Qed.

(** X5. When no entry has a negative length, the total a walk returns and
    every reading it records are not negative. *)
Theorem X5_readings_not_negative :
  forall (client_list : string -> attempt listing) (cwd base_path path : string)
         (fuel : nat) (t : tree) (w : world),
    path <> "" ->
    presents client_list path t ->
    (height t <= fuel)%nat ->
    lengths_not_negative t = true ->
    exists total w',
      list_dirs_recursive client_list cwd fuel path base_path w = Done (total, w')
      /\ 0 <= total
      /\ forall reading,
           In reading (file_size_metric w') ->
           In reading (file_size_metric w) \/ 0 <= snd reading.
Proof.
  intros client_list cwd base_path path fuel t w Hpath Hp Hh Hn.
  destruct (walk_spec client_list cwd base_path path Hpath fuel [] t w)
    as (w' & E & M & _); [now rewrite append_nil_r | exact Hh |].
  cbn [descend fold_right] in E. rewrite append_nil_r in E.
  exists (total_length (leaves_below t)), w'. split; [exact E|]. split.
  - now apply total_length_not_negative, leaves_not_negative.
  - intros reading Hin. rewrite M in Hin. apply in_app_or in Hin as [Hin|Hin];
      [now left | right].
    apply in_map_iff in Hin as (d & <- & Hd). cbn [reading_at snd].
    apply total_length_not_negative, leaves_not_negative.
    pose proof (folders_below_lengths t [] Hn) as Hall.
    rewrite Forall_forall in Hall. now apply Hall.
Qed.

Lemma X5_witness :
  exists total w',
    list_dirs_recursive hdfs_three home 3 current current empty_world
      = Done (total, w')
    /\ 0 <= total
    /\ forall reading,
         In reading (file_size_metric w') ->
         In reading (file_size_metric empty_world) \/ 0 <= snd reading.
Proof.
  apply (X5_readings_not_negative hdfs_three home current current 3 tree_three).
  - discriminate.
  - show_presents.
  - simpl. lia.
  - reflexivity.
Defined.

Lemma child_leaves_bounded (children : list (string * FileStatus * tree))
    (c : string * FileStatus * tree) :
  lengths_not_negative (Folder children) = true ->
  In c children ->
  is_directory (entry_item c) = true ->
  total_length (leaves_below (entry_tree c))
  <= total_length (leaves_below (Folder children)).
Proof.
  intros Hn Hin Hd. apply in_split in Hin as (before & after & ->).
  pose proof (leaves_not_negative _ Hn) as Hall.
  cbn [leaves_below] in *. rewrite flat_map_app in *.
  cbn [flat_map] in *. rewrite Hd in *.
  apply Forall_app in Hall as [Hb Ha]. apply Forall_app in Ha as [_ Ha].
  rewrite !total_length_app.
  apply total_length_not_negative in Hb, Ha. lia.
Qed.

(** X6. When no entry has a negative length, the total of a directory is
    at least the total of each directory in its listing. *)
Theorem X6_parent_at_least_child :
  forall (client_list : string -> attempt listing) (cwd base_path path : string)
         (fuel : nat) (children : list (string * FileStatus * tree))
         (name : string) (item : FileStatus) (sub : tree) (w w0 : world),
    path <> "" ->
    presents client_list path (Folder children) ->
    (height (Folder children) <= fuel)%nat ->
    lengths_not_negative (Folder children) = true ->
    In (name, item, sub) children ->
    is_directory item = true ->
    exists total w' subtotal w0',
      list_dirs_recursive client_list cwd fuel path base_path w = Done (total, w')
      /\ list_dirs_recursive client_list cwd fuel (path ++ "/" ++ name) base_path w0
         = Done (subtotal, w0')
      /\ subtotal <= total.
Proof.
  intros client_list cwd base_path path fuel children name item sub w w0
         Hpath Hp Hh Hn Hin Hd.
  destruct (walk_spec client_list cwd base_path path Hpath fuel [] (Folder children) w)
    as (w' & E & _); [now rewrite append_nil_r | exact Hh |].
  cbn [descend fold_right] in E. rewrite append_nil_r in E.
  assert (Hp' : presents client_list (path ++ "/" ++ name) sub).
  { inversion Hp as [|p cs Hl Hsub]; subst. rewrite Forall_forall in Hsub.
    exact (Hsub _ Hin Hd). }
  assert (Hh' : (height sub <= fuel)%nat).
  { destruct fuel as [|fuel]; [simpl in Hh; lia|].
    apply height_child in Hh. rewrite Forall_forall in Hh.
    specialize (Hh _ Hin Hd). cbn [entry_tree snd] in Hh. lia. }
  destruct (walk_spec client_list cwd base_path (path ++ "/" ++ name)
              (full_path_given path name) fuel [] sub w0)
    as (w0' & E' & _); [now rewrite append_nil_r | exact Hh' |].
  cbn [descend fold_right] in E'. rewrite append_nil_r in E'.
  eexists _, w', _, w0'. split; [exact E|]. split; [exact E'|].
  exact (child_leaves_bounded children (name, item, sub) Hn Hin Hd).
Qed.

Lemma X6_witness :
  exists total w' subtotal w0',
    list_dirs_recursive hdfs_three home 3 current current empty_world
      = Done (total, w')
    /\ list_dirs_recursive hdfs_three home 3 (current ++ "/" ++ "a") current empty_world
       = Done (subtotal, w0')
    /\ subtotal <= total.
Proof.
  apply (X6_parent_at_least_child hdfs_three home current current 3
           [ ("a", DIRECTORY,
              Folder [ ("file1", FILE 100, Unreadable "");
                       ("b", DIRECTORY, Folder [("file2", FILE 50, Unreadable "")]) ]);
             ("file3", FILE 10, Unreadable "") ]
           "a" DIRECTORY
           (Folder [ ("file1", FILE 100, Unreadable "");
                     ("b", DIRECTORY, Folder [("file2", FILE 50, Unreadable "")]) ])).
  - discriminate.
  - show_presents.
  - simpl. lia.
  - reflexivity.
  - left. reflexivity.
  - reflexivity.
Defined.

(* ================================================================= *)
(** ** What every walk keeps *)

Lemma sum_children_keeps (P : world -> Prop)
    (rec : string -> world -> outcome (Z * world)) (path : string) :
  (forall p w r w', rec p w = Done (r, w') -> P w -> P w') ->
  forall statuses total_size w r w',
    sum_children rec path statuses total_size w = Done (r, w') -> P w -> P w'.
Proof.
  intro Hrec. induction statuses as [|[name item] rest IH];
    intros total_size w r w' E Hw; cbn [sum_children] in E.
  - now injection E as _ <-.
  - destruct (is_directory item); [|now apply (IH _ _ _ _ E)].
    destruct (rec (path ++ "/" ++ name) w) as [[size w1]| |] eqn:E1;
      try discriminate.
    apply (IH _ _ _ _ E). now apply (Hrec _ _ _ _ E1).
Qed.

(** A property of the world that logging keeps, and that setting the gauge
    at a label of lines 78-82 keeps, is kept by every walk. *)
Lemma walk_keeps (P : world -> Prop)
    (client_list : string -> attempt listing) (cwd : string) :
  (forall lv msg w, P w -> P (logging lv msg w)) ->
  (forall rel v w, P w -> P (labels_set (label_of rel) v w)) ->
  forall fuel path base_path w r w',
    list_dirs_recursive client_list cwd fuel path base_path w = Done (r, w') ->
    P w -> P w'.
Proof.
  intros Hlog Hset.
  induction fuel as [|fuel IH]; intros path base_path w r w' E Hw; [discriminate|].
  cbn [list_dirs_recursive] in E.
  destruct (client_list path) as [statuses|e].
  - destruct (sum_children _ path statuses 0 w) as [[total_size w1]| |] eqn:E1;
      try discriminate.
    destruct (posixpath.relpath cwd path base_path) as [rel| |]; try discriminate.
    injection E as _ <-. apply Hlog, Hlog, Hset.
    apply (sum_children_keeps P
             (fun p => list_dirs_recursive client_list cwd fuel p base_path) path)
      with (statuses := statuses) (total_size := 0) (w := w) (r := total_size);
      [|exact E1|exact Hw].
    intros p w0 r0 w0' E0. now apply (IH _ _ _ _ _ E0).
  - injection E as _ <-. now apply Hlog.
Qed.

(** X7. A run that returns has attempted at most one push, to the
    configured gateway, under the job [disk_usage] and the instance of the
    service; the walk itself never pushes, and what was pushed before
    stays as it was. *)
Theorem X7_at_most_one_push :
  forall (client_list : string -> attempt listing)
         (push_to_gateway : push_request -> attempt unit)
         (PushGW_url Service : option string) (cwd : string)
         (fuel : nat) (root_path : string) (w : world),
    match process_latest_valid_folder client_list push_to_gateway PushGW_url
            Service cwd fuel root_path w with
    | Done (_, w') =>
        pushed w' = pushed w
        \/ exists samples,
             pushed w'
             = (pushed w ++ [mkPush PushGW_url "disk_usage"
                                    [("instance", Service)] samples])%list
    | _ => True
    end.
Proof.
  intros client_list push_to_gateway PushGW_url Service cwd fuel root_path w.
  unfold process_latest_valid_folder.
  destruct (client_list root_path) as [statuses|e]; [|now left].
  destruct (valid_folders client_list root_path statuses) as [|v vs]; [now left|].
  match goal with
  | |- context [list_dirs_recursive ?c ?d ?f ?p ?b ?w0] =>
      destruct (list_dirs_recursive c d f p b w0) as [[total w1]| e |] eqn:E
  end; [|exact I|exact I].
  assert (Hp : pushed w1 = pushed w).
  { exact (walk_keeps (fun x => pushed x = pushed w) client_list cwd
             (fun _ _ _ H => H) (fun _ _ _ H => H) _ _ _ _ _ _ E eq_refl). }
  destruct (push_to_gateway _); right; eexists;
    cbn [pushed logging record_push]; rewrite Hp; reflexivity.
Qed.

Lemma replace_no_backslash (s : string) :
  contains "\"%char (Str.replace "\"%char "/"%char s) = false.
Proof.
  induction s as [|c s IH]; [reflexivity|]. cbn [Str.replace contains].
  rewrite IH, orb_false_r.
  destruct (Ascii.eqb c "\"%char) eqn:E; [reflexivity | exact E].
Qed.

Lemma label_of_ok (rel : string) : label_ok (label_of rel) = true.
Proof.
  unfold label_of, label_ok.
  destruct (Str.replace "\"%char "/"%char rel =? ".")%string; [reflexivity|].
  cbn [append Str.startswith contains]. now rewrite replace_no_backslash.
Qed.

(** X8. Whatever the client, the path and the base path, every label a
    walk gives the gauge starts with a slash and has no backslash. *)
Theorem X8_labels_start_with_slash :
  forall (client_list : string -> attempt listing) (cwd : string)
         (fuel : nat) (path base_path : string) (w : world),
    match list_dirs_recursive client_list cwd fuel path base_path w with
    | Done (_, w') =>
        forall reading,
          In reading (file_size_metric w') ->
          In reading (file_size_metric w) \/ label_ok (fst reading) = true
    | _ => True
    end.
Proof.
  intros client_list cwd fuel path base_path w.
  destruct (list_dirs_recursive client_list cwd fuel path base_path w)
    as [[total w']| |] eqn:E; [|exact I|exact I].
  refine (walk_keeps
            (fun x => forall reading,
                        In reading (file_size_metric x) ->
                        In reading (file_size_metric w) \/ label_ok (fst reading) = true)
            client_list cwd (fun _ _ _ H => H) _ _ _ _ _ _ _ E _).
  - intros rel v x Hx reading Hin. cbn [labels_set file_size_metric] in Hin.
    apply in_app_or in Hin as [Hin|[<-|[]]]; [now apply Hx|].
    right. apply label_of_ok.
  - intros reading Hin. now left.
Qed.

(* ================================================================= *)
(** ** Further properties of the selection and of the push *)

(** X9. [has_merge_done] looks at the names of the [control] listing only:
    it answers [True] exactly when [merge.done] is one of them, whatever
    the type and the length of that entry and of the others. *)
Theorem X9_merge_done_is_a_name :
  forall (client_list : string -> attempt listing) (path : string)
         (control : listing),
    client_list (path ++ "/control") = Returned control ->
    (has_merge_done client_list path = true
     <-> In "merge.done" (map fst control)).
Proof.
  intros client_list path control H. rewrite has_merge_done_iff. split.
  - intros (control' & marker & E & Hin). rewrite H in E. injection E as <-.
    apply in_map_iff. now exists ("merge.done", marker).
  - intro Hin. apply in_map_iff in Hin as ([name marker] & E & Hin).
    simpl in E. subst name. now exists control, marker.
Qed.

Lemma X9_witness :
  has_merge_done hdfs_three (complete ++ "/2024-02-01") = true
  <-> In "merge.done" (map fst [("merge.done", FILE 0)]).
Proof.
  apply (X9_merge_done_is_a_name hdfs_three (complete ++ "/2024-02-01")).
  reflexivity.
Defined.

Lemma eligible_reordered (client_list : string -> attempt listing)
    (root_path : string) (statuses statuses' : listing) (name : string) :
  Permutation statuses statuses' ->
  eligible client_list root_path statuses name ->
  eligible client_list root_path statuses' name.
Proof.
  intros Hperm (item & control & marker & Hin & H).
  exists item, control, marker. split; [|exact H].
  now apply (Permutation_in _ Hperm).
Qed.

(** X10. The selected partition does not depend on the order in which the
    client lists the root. *)
Theorem X10_selection_ignores_listing_order :
  forall (client_list : string -> attempt listing) (root_path : string)
         (statuses statuses' : listing),
    Permutation statuses statuses' ->
    latest_of (valid_folders client_list root_path statuses)
    = latest_of (valid_folders client_list root_path statuses').
Proof.
  intros client_list root_path statuses statuses' Hperm.
  assert (Hsame : forall name,
             In name (valid_folders client_list root_path statuses)
             <-> In name (valid_folders client_list root_path statuses')).
  { intro name. rewrite !valid_folders_iff. split.
    - now apply eligible_reordered.
    - now apply eligible_reordered, Permutation_sym. }
  destruct (valid_folders client_list root_path statuses) as [|v vs] eqn:Ev;
    destruct (valid_folders client_list root_path statuses') as [|v' vs'] eqn:Ev'.
  - reflexivity.
  - exfalso. apply (Hsame v'). now left.
  - exfalso. apply (Hsame v). now left.
  - destruct (latest_of_greatest (v :: vs)) as [Hin Hmax]; [discriminate|].
    destruct (latest_of_greatest (v' :: vs')) as [Hin' Hmax']; [discriminate|].
    apply String.leb_antisym.
    + apply Hmax'. now apply Hsame.
    + apply Hmax. now apply Hsame.
Qed.

Lemma X10_witness :
  latest_of (valid_folders hdfs_three complete
               [("2024-01-01", DIRECTORY); ("2024-02-01", DIRECTORY);
                ("2024-03-01", DIRECTORY)])
  = latest_of (valid_folders hdfs_three complete
                 [("2024-02-01", DIRECTORY); ("2024-01-01", DIRECTORY);
                  ("2024-03-01", DIRECTORY)]).
Proof.
  apply X10_selection_ignores_listing_order. apply perm_swap.
Defined.

(** X11. After the walk the outcome of the push only decides the last
    record of the log: a push that throws is logged as an error with the
    text of the exception and a push that returns as a success; either way
    the run returns and the readings and the request are the same. *)
Theorem X11_push_outcome_is_logged :
  forall (client_list : string -> attempt listing)
         (push_to_gateway : push_request -> attempt unit)
         (PushGW_url Service : option string) (cwd : string)
         (fuel : nat) (root_path : string) (statuses : listing)
         (candidate : string) (t : tree) (w : world),
    client_list root_path = Returned statuses ->
    eligible client_list root_path statuses candidate ->
    let folder_path :=
      root_path ++ "/" ++ latest_of (valid_folders client_list root_path statuses)
        ++ "/barrels/current" in
    presents client_list folder_path t ->
    (height t <= fuel)%nat ->
    let readings := map (reading_at cwd folder_path folder_path) (folders_below [] t) in
    let req := mkPush PushGW_url JOB_NAME [("instance", Service)] (collect readings) in
    exists w',
      process_latest_valid_folder client_list push_to_gateway PushGW_url Service cwd
        fuel root_path w = Done (tt, w')
      /\ file_size_metric w' = readings
      /\ pushed w' = (pushed w ++ [req])%list
      /\ last (logged w') (INFO, "")
         = match push_to_gateway req with
           | Returned _ =>
               (INFO, newline
                        ++ "✅ Metrics were successfully pushed to the Pushgateway.")
           | Threw e =>
               (ERROR, newline
                         ++ "❌ An error occured while pushing the metrics: " ++ e)
           end.
Proof.
  intros client_list push_to_gateway PushGW_url Service cwd fuel root_path
         statuses candidate t w Hl Hc folder_path Hp Hh readings req.
  assert (Hv : valid_folders client_list root_path statuses <> []).
  { apply valid_folders_iff in Hc. intro E. rewrite E in Hc. destruct Hc. }
  unfold process_latest_valid_folder. rewrite Hl.
  destruct (valid_folders client_list root_path statuses) as [|v vs] eqn:Ev;
    [contradiction|].
  fold folder_path.
  set (w0 := logging INFO _ (new_registry w)).
  destruct (walk_spec client_list cwd folder_path folder_path
              (start_given root_path (latest_of (v :: vs))) fuel [] t w0)
    as (w1 & E1 & M1 & P1); [now rewrite append_nil_r | exact Hh |].
  cbn [descend fold_right] in E1. rewrite append_nil_r in E1. rewrite E1.
  cbn [file_size_metric w0 logging new_registry app] in M1.
  unfold push_of. rewrite M1. fold readings. fold req.
  destruct (push_to_gateway req); eexists;
    (split; [reflexivity|]);
    cbn [file_size_metric pushed logged logging record_push];
    rewrite M1, P1, last_last; repeat split.
Qed.

Lemma X11_witness :
  exists w',
    process_latest_valid_folder hdfs_three gateway_down gateway_url service home
      3 complete empty_world = Done (tt, w')
    /\ file_size_metric w'
       = map (reading_at home current current) (folders_below [] tree_three)
    /\ pushed w'
       = (pushed empty_world
            ++ [mkPush gateway_url JOB_NAME [("instance", service)]
                       (collect (map (reading_at home current current)
                                     (folders_below [] tree_three)))])%list
    /\ last (logged w') (INFO, "")
       = match gateway_down
                 (mkPush gateway_url JOB_NAME [("instance", service)]
                         (collect (map (reading_at home current current)
                                       (folders_below [] tree_three)))) with
         | Returned _ =>
             (INFO, newline
                      ++ "✅ Metrics were successfully pushed to the Pushgateway.")
         | Threw e =>
             (ERROR, newline
                       ++ "❌ An error occured while pushing the metrics: " ++ e)
         end.
Proof.
  apply (X11_push_outcome_is_logged hdfs_three gateway_down gateway_url service home
           3 complete
           [("2024-01-01", DIRECTORY); ("2024-02-01", DIRECTORY);
            ("2024-03-01", DIRECTORY)] "2024-02-01" tree_three empty_world).
  - reflexivity.
  - exists DIRECTORY, [("merge.done", FILE 0)], (FILE 0).
    repeat split; simpl; auto.
  - show_presents.
  - simpl. lia.
Defined.

(* ================================================================= *)
(** ** What a walk logs *)

Lemma sum_children_logged (cwd base_path start : string)
    (rec : string -> world -> outcome (Z * world))
    (path : string) (names : list string) :
  forall children : list (string * FileStatus * tree),
  Forall (child_logged cwd base_path start rec path names) children ->
  forall total_size w, exists w',
    sum_children rec path (map fst children) total_size w
      = Done (total_size + total_length (leaves_below (Folder children)), w')
    /\ logged w'
       = (logged w
            ++ flat_map (fun c => if is_directory (entry_item c)
                                  then walk_log cwd base_path start
                                         (names ++ [entry_name c]) (entry_tree c)
                                  else []) children)%list.
Proof.
  induction children as [|[[name item] sub] cs IH]; intros Hall total_size w.
  - exists w. simpl. rewrite Z.add_0_r, app_nil_r. auto.
  - apply Forall_cons_iff in Hall as [Hc Hcs].
    cbn [map fst sum_children].
    unfold child_logged, entry_item, entry_name, entry_tree in Hc.
    cbn [fst snd] in Hc.
    cbn [leaves_below flat_map entry_item entry_name entry_tree fst snd].
    destruct (is_directory item) eqn:Hd.
    + destruct (Hc eq_refl w) as (w1 & E1 & L1). rewrite E1.
      destruct (IH Hcs (total_size + total_length (leaves_below sub)) w1)
        as (w2 & E2 & L2).
      exists w2. rewrite E2. split.
      * f_equal. f_equal. cbn [leaves_below]. rewrite total_length_app. lia.
      * rewrite L2, L1, app_assoc. reflexivity.
    + destruct (IH Hcs (total_size + item_length item) w) as (w2 & E2 & L2).
      exists w2. rewrite E2. split; [|exact L2].
      f_equal. f_equal. cbn [leaves_below app].
      change (total_length (item :: ?l)) with (item_length item + total_length l).
      lia.
Qed.

(** A walk with enough fuel logs the records of the tree. *)
Lemma walk_logged (client_list : string -> attempt listing)
    (cwd base_path start : string) :
  start <> "" ->
  forall fuel names t w,
    presents client_list (start ++ descend names) t ->
    (height t <= fuel)%nat ->
    exists w',
      list_dirs_recursive client_list cwd fuel (start ++ descend names) base_path w
        = Done (total_length (leaves_below t), w')
      /\ logged w' = (logged w ++ walk_log cwd base_path start names t)%list.
Proof.
  intro Hstart.
  induction fuel as [|fuel IH]; intros names t w Hp Hh.
  - pose proof (height_pos t). lia.
  - inversion Hp as [path e Hl | path children Hl Hsub]; subst.
    + cbn [list_dirs_recursive]. rewrite Hl. eexists. split; reflexivity.
    + apply height_child in Hh.
      assert (Hall : Forall (child_logged cwd base_path start
                               (fun p => list_dirs_recursive client_list cwd fuel
                                           p base_path)
                               (start ++ descend names) names) children).
      { rewrite Forall_forall in *. intros c Hin Hd w0.
        specialize (IH (names ++ [entry_name c])%list (entry_tree c) w0).
        rewrite descend_snoc, <- append_assoc in IH.
        apply IH; auto. }
      destruct (sum_children_logged cwd base_path start _ _ names children Hall 0 w)
        as (w1 & E1 & L1).
      cbn [list_dirs_recursive]. rewrite Hl, E1.
      unfold posixpath.relpath. rewrite is_empty_false.
      * eexists. split; [rewrite Z.add_0_l; reflexivity|].
        cbn [logged logging labels_set walk_log].
        rewrite L1, <- !app_assoc. reflexivity.
      * intro E. apply append_empty in E. contradiction.
Qed.

Lemma walk_log_warnings (cwd base_path start : string) : forall t names,
  filter is_warning (walk_log cwd base_path start names t)
  = map (fun d => warning_of (start ++ descend (fst d)) (snd d))
        (unreadable_below names t).
Proof.
  induction t as [e|children IH] using tree_induction; intro names;
    [reflexivity|].
  cbn [walk_log unreadable_below]. rewrite filter_app.
  cbn [info_of filter is_warning fst]. rewrite app_nil_r.
  induction IH as [|c cs Hc Hcs IHcs]; [reflexivity|].
  cbn [flat_map]. rewrite filter_app, map_app, IHcs. f_equal.
  destruct (is_directory (entry_item c)); [apply Hc | reflexivity].
Qed.

Lemma walk_log_infos (cwd base_path start : string) : forall t names,
  filter is_info (walk_log cwd base_path start names t)
  = flat_map info_of
      (map (reading_at cwd base_path start) (folders_below names t)).
Proof.
  induction t as [e|children IH] using tree_induction; intro names;
    [reflexivity|].
  cbn [walk_log folders_below].
  rewrite filter_app, map_app, flat_map_app. f_equal.
  induction IH as [|c cs Hc Hcs IHcs]; [reflexivity|].
  cbn [flat_map]. rewrite filter_app, map_app, flat_map_app, IHcs. f_equal.
  destruct (is_directory (entry_item c)); [apply Hc | reflexivity].
Qed.

(** X12. A walk logs one warning for every directory whose listing
    throws, in the order it meets them, with the path of the directory and
    the text of the exception, and no other warning. *)
Theorem X12_one_warning_per_failed_listing :
  forall (client_list : string -> attempt listing) (cwd base_path path : string)
         (fuel : nat) (t : tree) (w : world),
    path <> "" ->
    presents client_list path t ->
    (height t <= fuel)%nat ->
    exists total w' added,
      list_dirs_recursive client_list cwd fuel path base_path w = Done (total, w')
      /\ logged w' = (logged w ++ added)%list
      /\ filter is_warning added
         = map (fun d => (WARNING,
                          "There was an error while reading the folder "
                            ++ (path ++ descend (fst d)) ++ ": " ++ snd d))
               (unreadable_below [] t).
Proof.
  intros client_list cwd base_path path fuel t w Hpath Hp Hh.
  destruct (walk_logged client_list cwd base_path path Hpath fuel [] t w)
    as (w' & E & L); [now rewrite append_nil_r | exact Hh |].
  cbn [descend fold_right] in E. rewrite append_nil_r in E.
  exists (total_length (leaves_below t)), w', (walk_log cwd base_path path [] t).
  split; [exact E|]. split; [exact L|]. apply walk_log_warnings.
Qed.

Lemma X12_witness :
  exists total w' added,
    list_dirs_recursive hdfs_fault home 2 current current empty_world
      = Done (total, w')
    /\ logged w' = (logged empty_world ++ added)%list
    /\ filter is_warning added
       = map (fun d => (WARNING,
                        "There was an error while reading the folder "
                          ++ (current ++ descend (fst d)) ++ ": " ++ snd d))
             (unreadable_below [] tree_fault).
Proof.
  apply X12_one_warning_per_failed_listing.
  - discriminate.
  - show_presents.
  - simpl. lia.
Defined.

(** X13. Every reading a walk records is logged, in the order of the
    readings, as a [Folder] record with the label and a [Size] record with
    the bytes; the walk logs no other record at level INFO. *)
Theorem X13_every_reading_is_logged :
  forall (client_list : string -> attempt listing) (cwd base_path path : string)
         (fuel : nat) (t : tree) (w : world),
    path <> "" ->
    presents client_list path t ->
    (height t <= fuel)%nat ->
    exists total w' added recorded,
      list_dirs_recursive client_list cwd fuel path base_path w = Done (total, w')
      /\ logged w' = (logged w ++ added)%list
      /\ file_size_metric w' = (file_size_metric w ++ recorded)%list
      /\ filter is_info added
         = flat_map (fun reading =>
                       [ (INFO, "   Folder: " ++ fst reading);
                         (INFO, "       - Size: " ++ str_of_int (snd reading)
                                  ++ " Bytes") ])
                    recorded.
Proof.
  intros client_list cwd base_path path fuel t w Hpath Hp Hh.
  destruct (walk_logged client_list cwd base_path path Hpath fuel [] t w)
    as (w' & E & L); [now rewrite append_nil_r | exact Hh |].
  destruct (walk_spec client_list cwd base_path path Hpath fuel [] t w)
    as (w'' & E' & M & _); [now rewrite append_nil_r | exact Hh |].
  rewrite E in E'. injection E' as <-.
  cbn [descend fold_right] in E. rewrite append_nil_r in E.
  exists (total_length (leaves_below t)), w', (walk_log cwd base_path path [] t),
         (map (reading_at cwd base_path path) (folders_below [] t)).
  split; [exact E|]. split; [exact L|]. split; [exact M|].
  apply walk_log_infos.
Qed.

Lemma X13_witness :
  exists total w' added recorded,
    list_dirs_recursive hdfs_three home 3 current current empty_world
      = Done (total, w')
    /\ logged w' = (logged empty_world ++ added)%list
    /\ file_size_metric w' = (file_size_metric empty_world ++ recorded)%list
    /\ filter is_info added
       = flat_map (fun reading =>
                     [ (INFO, "   Folder: " ++ fst reading);
                       (INFO, "       - Size: " ++ str_of_int (snd reading)
                                ++ " Bytes") ])
                  recorded.
Proof.
  apply (X13_every_reading_is_logged hdfs_three home current current 3 tree_three).
  - discriminate.
  - show_presents.
  - simpl. lia.
Defined.

(* ================================================================= *)
(** ** One label per directory *)

(** Names that are proper and have no backslash. *)
Lemma label_at_injective (ns ns' : list string) :
  Forall (fun n => proper_name n = true) ns ->
  Forall (fun n => contains "\"%char n = false) ns ->
  Forall (fun n => proper_name n = true) ns' ->
  Forall (fun n => contains "\"%char n = false) ns' ->
  label_at ns = label_at ns' -> ns = ns'.
Proof.
  intros Hp Hb Hp' Hb' E.
  assert (Hnot : forall a p, proper_name a = true ->
                 "/" <> "/" ++ Str.replace "\"%char "/"%char (String.concat "/" (a :: p))).
  { intros a p Ha E0. rewrite concat_cons in E0.
    remember (a ++ descend p) as x eqn:Ex. injection E0 as E0. symmetry in E0.
    apply replace_empty in E0. subst x.
    apply append_empty in E0. apply proper_name_inv in Ha. tauto. }
  assert (Hkept : forall l, Forall (fun n => proper_name n = true) l ->
                  Forall kept_word l).
  { intros l Hl. eapply Forall_impl; [|exact Hl].
    intros n Hn. apply proper_name_inv in Hn. unfold kept_word. tauto. }
  assert (Hplain : forall a p, Forall (fun n => contains "\"%char n = false) (a :: p) ->
                   Str.replace "\"%char "/"%char (String.concat "/" (a :: p))
                   = String.concat "/" (a :: p)).
  { intros a p Hl. apply replace_plain. rewrite concat_cons, contains_append.
    apply Forall_cons_iff in Hl as [Ha Hl]. now rewrite Ha, descend_no_backslash. }
  destruct ns as [|a p], ns' as [|a' p']; unfold label_at in E;
    rewrite <- ?replace_forward_slashes in E.
  - reflexivity.
  - exfalso. apply Forall_cons_iff in Hp' as [Ha' _]. exact (Hnot a' p' Ha' E).
  - exfalso. apply Forall_cons_iff in Hp as [Ha _]. symmetry in E.
    exact (Hnot a p Ha E).
  - rewrite !Hplain in E by assumption.
    remember (String.concat "/" (a :: p)) as x eqn:Ex.
    remember (String.concat "/" (a' :: p')) as x' eqn:Ex'.
    injection E as E. subst x x'.
    rewrite <- (components_concat (a :: p)), <- (components_concat (a' :: p'));
      auto. now rewrite E.
Qed.

Lemma NoDup_map_in (A B : Type) (f : A -> B) (l : list A) :
  (forall x y, In x l -> In y l -> f x = f y -> x = y) ->
  NoDup l -> NoDup (map f l).
Proof.
  intros Hinj Hn. induction Hn as [|x l Hx Hn IH]; [constructor|].
  cbn [map]. constructor.
  - intro Hin. apply in_map_iff in Hin as (y & E & Hy).
    apply Hx. rewrite (Hinj x y); auto; [now left | now right].
  - apply IH. intros a b Ha Hb. apply Hinj; now right.
Qed.

Lemma distinct_inv (x : string) (l : list string) :
  distinct (x :: l) = true -> ~ In x l /\ distinct l = true.
Proof.
  cbn [distinct]. intro H. apply andb_prop in H as [Hx Hl]. split; [|exact Hl].
  apply negb_true_iff in Hx. intro Hin.
  assert (E : existsb (String.eqb x) l = true).
  { apply existsb_exists. exists x. split; [exact Hin | apply String.eqb_refl]. }
  congruence.
Qed.

Lemma folders_below_prefix : forall t names d,
  In d (folders_below names t) -> exists suffix, fst d = (names ++ suffix)%list.
Proof.
  induction t as [e|children IH] using tree_induction; intros names d Hin.
  - destruct Hin.
  - cbn [folders_below] in Hin. apply in_app_or in Hin as [Hin|[<-|[]]].
    + apply in_flat_map in Hin as (c & Hc & Hin).
      rewrite Forall_forall in IH.
      destruct (is_directory (entry_item c)); [|destruct Hin].
      destruct (IH c Hc _ _ Hin) as (suffix & E).
      exists ([entry_name c] ++ suffix)%list. now rewrite E, <- app_assoc.
    + exists []. now rewrite app_nil_r.
Qed.

Lemma folders_below_plain : forall t names,
  distinct_names t = true ->
  Forall (fun n => contains "\"%char n = false) names ->
  Forall (fun d => Forall (fun n => contains "\"%char n = false) (fst d))
         (folders_below names t).
Proof.
  induction t as [e|children IH] using tree_induction; intros names Hd Hn.
  - constructor.
  - cbn [folders_below]. apply Forall_app. split; [|repeat constructor; exact Hn].
    cbn [distinct_names] in Hd. apply andb_prop in Hd as [_ Hd].
    rewrite forallb_forall in Hd. rewrite Forall_forall in IH.
    apply Forall_flat_map, Forall_forall. intros c Hc. specialize (Hd c Hc).
    destruct (is_directory (entry_item c)); [|constructor].
    apply andb_prop in Hd as [Hname Hsub]. apply negb_true_iff in Hname.
    apply IH; auto. apply Forall_app. split; [exact Hn | repeat constructor; exact Hname].
Qed.

Lemma in_directory_names (children : list (string * FileStatus * tree))
    (c : string * FileStatus * tree) :
  In c children -> is_directory (entry_item c) = true ->
  In (entry_name c) (directory_names children).
Proof.
  intros Hin Hd. unfold directory_names. apply in_map, filter_In. now split.
Qed.

(** With names of their own in every listing, the directories of the tree
    are reached through different names. *)
Lemma folders_below_distinct : forall t names,
  distinct_names t = true -> NoDup (map fst (folders_below names t)).
Proof.
  induction t as [e|children IH] using tree_induction; intros names Hd.
  - constructor.
  - cbn [folders_below]. rewrite map_app. cbn [map fst].
    cbn [distinct_names] in Hd. apply andb_prop in Hd as [Hdist Hsub].
    apply NoDup_app.
    + revert Hdist Hsub. induction IH as [|c cs Hc Hcs IHcs]; intros Hdist Hsub;
        [constructor|].
      cbn [forallb] in Hsub. apply andb_prop in Hsub as [Hsubc Hsub].
      unfold directory_names in Hdist. cbn [flat_map filter] in *.
      rewrite map_app.
      destruct (is_directory (entry_item c)) eqn:Edir; [|now apply IHcs].
      cbn [map] in Hdist. apply distinct_inv in Hdist as [Hnew Hdist].
      apply andb_prop in Hsubc as [_ Hsubc].
      apply NoDup_app; [now apply Hc | now apply IHcs |].
      intros ns Hin Hin'.
      apply in_map_iff in Hin as (d & E & Hin).
      apply folders_below_prefix in Hin as (suffix & Ed).
      apply in_map_iff in Hin' as (d' & E' & Hin').
      apply in_flat_map in Hin' as (c' & Hc' & Hin').
      destruct (is_directory (entry_item c')) eqn:Edir'; [|destruct Hin'].
      apply folders_below_prefix in Hin' as (suffix' & Ed').
      rewrite E, <- app_assoc in Ed. rewrite E', <- app_assoc in Ed'.
      rewrite Ed in Ed'. apply app_inv_head in Ed'. injection Ed' as Ename _.
      apply Hnew. rewrite Ename.
      now apply (in_directory_names cs c').
    + repeat constructor. intros [].
    + intros ns Hin [<-|[]].
      apply in_map_iff in Hin as (d & E & Hin).
      apply in_flat_map in Hin as (c & Hc & Hin).
      destruct (is_directory (entry_item c)); [|destruct Hin].
      apply folders_below_prefix in Hin as (suffix & E').
      rewrite E, <- app_assoc in E'.
      apply (f_equal (@List.length string)) in E'.
      rewrite !length_app in E'. cbn [List.length] in E'. lia.
Qed.

(** With no negative length, no directory of the tree holds more bytes
    than the whole tree. *)
Lemma folders_below_bounded : forall t names d,
  lengths_not_negative t = true ->
  In d (folders_below names t) ->
  0 <= total_length (leaves_below (snd d)) <= total_length (leaves_below t).
Proof.
  induction t as [e|children IH] using tree_induction; intros names d Hn Hin.
  - destruct Hin.
  - cbn [folders_below] in Hin. apply in_app_or in Hin as [Hin|[<-|[]]].
    + apply in_flat_map in Hin as (c & Hc & Hin).
      destruct (is_directory (entry_item c)) eqn:Hd; [|destruct Hin].
      rewrite Forall_forall in IH.
      assert (Hnc : lengths_not_negative (entry_tree c) = true).
      { cbn [lengths_not_negative] in Hn. rewrite forallb_forall in Hn.
        specialize (Hn c Hc). now rewrite Hd in Hn. }
      pose proof (IH c Hc _ _ Hnc Hin) as Hb.
      pose proof (child_leaves_bounded children c Hn Hc Hd). lia.
    + cbn [snd]. split; [|lia].
      now apply total_length_not_negative, leaves_not_negative.
Qed.

(** X14. When the directories below [barrels/current] have file-system
    names without backslash and names of their own in every listing, no
    label is set twice, and the batch the run pushes has one sample per
    listed directory: its path from the start, and the bytes below it.
    With no negative length and at most [2^53] bytes in all, every value
    is an integer a float holds as it is. *)
Theorem X14_pushed_batch :
  forall (client_list : string -> attempt listing)
         (push_to_gateway : push_request -> attempt unit)
         (PushGW_url Service : option string) (cwd : string)
         (fuel : nat) (root_path : string) (statuses : listing)
         (candidate : string) (t : tree) (w : world),
    posixpath.isabs cwd = true ->
    client_list root_path = Returned statuses ->
    eligible client_list root_path statuses candidate ->
    presents client_list
      (root_path ++ "/" ++ latest_of (valid_folders client_list root_path statuses)
         ++ "/barrels/current") t ->
    (height t <= fuel)%nat ->
    well_named t = true ->
    distinct_names t = true ->
    lengths_not_negative t = true ->
    total_length (leaves_below t) <= 2 ^ 53 ->
    let samples :=
      map (fun d => (label_at (fst d), total_length (leaves_below (snd d))))
          (folders_below [] t) in
    exists w',
      process_latest_valid_folder client_list push_to_gateway PushGW_url Service cwd
        fuel root_path w = Done (tt, w')
      /\ NoDup (map fst (file_size_metric w'))
      /\ pushed w'
         = (pushed w
              ++ [mkPush PushGW_url JOB_NAME [("instance", Service)] samples])%list
      /\ Forall (fun sample => 0 <= snd sample <= 2 ^ 53) samples.
Proof.
  intros client_list push_to_gateway PushGW_url Service cwd fuel root_path
         statuses candidate t w Hcwd Hl Hc Hp Hh Hn Hd Hpos Hmax samples.
  assert (Hv : valid_folders client_list root_path statuses <> []).
  { apply valid_folders_iff in Hc. intro E. rewrite E in Hc. destruct Hc. }
  destruct (run_walked client_list push_to_gateway PushGW_url Service cwd
              fuel root_path statuses t w Hl Hv Hp Hh) as (w' & E & M & P).
  pose proof (folders_below_named t [] Hn (Forall_nil _)) as Hnamed.
  pose proof (folders_below_plain t [] Hd (Forall_nil _)) as Hplain.
  rewrite Forall_forall in Hnamed, Hplain.
  assert (Hm : file_size_metric w' = samples).
  { rewrite M. apply map_ext_in. intros d Hin. unfold reading_at. f_equal.
    apply folder_label_below; auto using start_given. }
  assert (Hdup : NoDup (map fst (file_size_metric w'))).
  { rewrite Hm. unfold samples. rewrite map_map. cbn [fst].
    rewrite <- (map_map fst label_at).
    apply NoDup_map_in; [|now apply folders_below_distinct].
    intros ns ns' Hin Hin' El.
    apply in_map_iff in Hin as (d & <- & Hin).
    apply in_map_iff in Hin' as (d' & <- & Hin').
    apply label_at_injective; auto. }
  exists w'. split; [exact E|]. split; [exact Hdup|]. split.
  - rewrite P, (collect_distinct _ Hdup), Hm. reflexivity.
  - apply Forall_forall. intros sample Hin.
    apply in_map_iff in Hin as (d & <- & Hin). cbn [snd].
    pose proof (folders_below_bounded t [] d Hpos Hin). lia.
Qed.

Lemma X14_witness :
  exists w',
    process_latest_valid_folder hdfs_three gateway_up gateway_url service home
      3 complete empty_world = Done (tt, w')
    /\ NoDup (map fst (file_size_metric w'))
    /\ pushed w'
       = (pushed empty_world
            ++ [mkPush gateway_url JOB_NAME [("instance", service)]
                       (map (fun d => (label_at (fst d),
                                       total_length (leaves_below (snd d))))
                            (folders_below [] tree_three))])%list
    /\ Forall (fun sample => 0 <= snd sample <= 2 ^ 53)
              (map (fun d => (label_at (fst d),
                              total_length (leaves_below (snd d))))
                   (folders_below [] tree_three)).
Proof.
  apply (X14_pushed_batch hdfs_three gateway_up gateway_url service home 3 complete
           [("2024-01-01", DIRECTORY); ("2024-02-01", DIRECTORY);
            ("2024-03-01", DIRECTORY)] "2024-02-01" tree_three empty_world).
  - reflexivity.
  - reflexivity.
  - exists DIRECTORY, [("merge.done", FILE 0)], (FILE 0).
    repeat split; simpl; auto.
  - show_presents.
  - simpl. lia.
  - reflexivity.
  - reflexivity.
  - reflexivity.
  - vm_compute. discriminate.
Defined.
